(** * PhotoShare front end (app.js): pagination, gallery view state, submissions

    A shallow embedding of the parts of [app.js] that carry logic:
    [UIComponents.createPagination], [ApiService.get]/[post],
    [PhotoService.getPhotos]/[addComment]/[ratePhoto],
    [AuthService.getCurrentUser] and the [PhotoGallery] view state
    ([loadPhotos], [searchPhotos], [goToPage]); further on, the session
    ([AuthService.login], [register], [logout], the role tests), the
    checks and notifications of [Utils], the login and register form
    handlers and the page initialization.

    Conventions.
    - JavaScript numbers that are page numbers, counts, ids or ratings
      are integers of [Z].
    - Markup is kept as a list of tokens, one per [html += ...] of the
      source, not as text.
    - An [async] function is split at its [await]: the part that runs
      when it is called, and the continuation that runs when the request
      settles.  Effects (requests, console, notifications, rendering)
      are collected in a log, in the order the source performs them. *)

From Stdlib Require Import ZArith List Bool Lia Ascii.
From stdpp Require Import base list strings gmap pretty.

Local Open Scope string_scope.
Local Open Scope Z_scope.
Local Open Scope list_scope.

(** ** Configuration (lines 2-8) *)

Module CONFIG.
Definition API_URL : string := "http://127.0.0.1:5000/api".
Definition ITEMS_PER_PAGE : Z := 12.
End CONFIG.

(** ** Values, objects and errors *)

(** The primitive values that end up in query parameters and request
    bodies. *)
Inductive JsVal :=
  | VNum (n : Z)
  | VStr (s : string).

(** An object literal: its own properties in insertion order. *)
Definition JsObj := list (string * JsVal).

(** [obj[k] = v]: an existing key keeps its place, a new one goes last. *)
Fixpoint obj_set (o : JsObj) (k : string) (v : JsVal) : JsObj :=
  match o with
  | [] => [(k, v)]
  | (k', v') :: o' =>
      if String.eqb k' k then (k', v) :: o' else (k', v') :: obj_set o' k v
  end.

Fixpoint obj_get (o : JsObj) (k : string) : option JsVal :=
  match o with
  | [] => None
  | (k', v') :: o' => if String.eqb k' k then Some v' else obj_get o' k
  end.

(** [{ ...o, ...src }] continued: the properties of [src] are set in order. *)
Definition obj_spread (o src : JsObj) : JsObj :=
  fold_left (fun acc kv => obj_set acc (fst kv) (snd kv)) src o.

(** [String(v)], as [URLSearchParams] and template literals apply it. *)
Definition to_string (v : JsVal) : string :=
  match v with
  | VNum n => pretty n
  | VStr s => s
  end.

Record JsError := MkError { err_name : string; err_message : string }.

(** The result of a call that may throw (or of a promise that may
    reject). *)
Inductive Result (A : Type) :=
  | Ok (a : A)
  | Throw (e : JsError).
Arguments Ok {A} a.
Arguments Throw {A} e.

(** ** UI components: pagination (lines 344-385) *)

Module UIComponents.

(** One token per piece of markup the function appends. *)
Inductive Markup :=
  | PrevBtn (target : Z) (disabled : bool)
  | EdgeBtn (page : Z)
  | Dots
  | PageBtn (page : Z) (active : bool)
  | NextBtn (target : Z) (disabled : bool).

Definition maxVisible : Z := 5.

(** Lines 347-352: [start] and [end] of the visible window. *)
Definition pageWindow (currentPage totalPages : Z) : Z * Z :=
  let start := Z.max 1 (currentPage - maxVisible / 2) in
  let end_ := Z.min totalPages (start + maxVisible - 1) in
  let start :=
    if end_ - start + 1 <? maxVisible
    then Z.max 1 (end_ - maxVisible + 1)
    else start in
  (start, end_).

(** Lines 366-371: [for (let i = start; i <= end; i++)]. *)
Definition pageButtons (currentPage start end_ : Z) : list Markup :=
  (fun i => PageBtn i (i =? currentPage)) <$> seqZ start (end_ - start + 1).

Definition createPagination (currentPage totalPages : Z) : list Markup :=
  let html := [] in
  let '(start, end_) := pageWindow currentPage totalPages in
  (* Previous button *)
  let html := html ++ [PrevBtn (currentPage - 1) (currentPage =? 1)] in
  (* Page numbers *)
  let html :=
    if 1 <? start then
      let html := html ++ [EdgeBtn 1] in
      if 2 <? start then html ++ [Dots] else html
    else html in
  let html := html ++ pageButtons currentPage start end_ in
  let html :=
    if end_ <? totalPages then
      let html := if end_ <? totalPages - 1 then html ++ [Dots] else html in
      html ++ [EdgeBtn totalPages]
    else html in
  (* Next button *)
  html ++ [NextBtn (currentPage + 1) (currentPage =? totalPages)].

(** *** Observations on the rendered tokens *)

Definition Markup_eqb (a b : Markup) : bool :=
  match a, b with
  | PrevBtn t d, PrevBtn t' d' => (t =? t') && Bool.eqb d d'
  | EdgeBtn p, EdgeBtn p' => p =? p'
  | Dots, Dots => true
  | PageBtn p a, PageBtn p' a' => (p =? p') && Bool.eqb a a'
  | NextBtn t d, NextBtn t' d' => (t =? t') && Bool.eqb d d'
  | _, _ => false
  end.

(** The page numbers of the window buttons, in order. *)
Definition windowPages (html : list Markup) : list Z :=
  omap (fun m => match m with PageBtn p _ => Some p | _ => None end) html.

(** The tokens before the first window button and after the last. *)
Definition isPageBtn (m : Markup) : bool :=
  match m with PageBtn _ _ => true | _ => false end.

Fixpoint beforeWindow (html : list Markup) : list Markup :=
  match html with
  | [] => []
  | m :: html' => if isPageBtn m then [] else m :: beforeWindow html'
  end.

Definition afterWindow (html : list Markup) : list Markup :=
  rev (beforeWindow (rev html)).

Definition has (m : Markup) (html : list Markup) : bool :=
  existsb (Markup_eqb m) html.

(** The window as the specification words it, for a window size [w]. *)
Definition spec_window (w c t : Z) : Z * Z :=
  let start := Z.max 1 (c - w / 2) in
  let end_ := Z.min t (start + w - 1) in
  if end_ - start + 1 <? w then (Z.max 1 (end_ - w + 1), end_)
  else (start, end_).

End UIComponents.

(** ** Data exchanged with the server and the page *)

(** A photo record as the server sends it; the gallery only stores and
    renders it. *)
Record Photo := {
  photo_id : Z;
  photo_title : string;
  photo_location : option string;
  photo_avg_rating : option string;
  photo_comment_count : option Z
}.

(** The body of [GET /photos]: every field may be missing. *)
Record Pagination := { pages : option Z; total : option Z }.
Record PhotosResponse := {
  resp_photos : option (list Photo);
  resp_pagination : option Pagination
}.

(** What [response.json()] can resolve to for that endpoint.  Reading a
    field of [null] throws; every other value reads as an object, with
    the fields it does not have missing. *)
Inductive PhotosJson :=
  | JsonNull
  | JsonObject (r : PhotosResponse).

(** [x || d] for a number that may be missing: [undefined] and [0] are
    falsy. *)
Definition num_or (x : option Z) (d : Z) : Z :=
  match x with
  | Some n => if n =? 0 then d else n
  | None => d
  end.

(** [x || []] for an array that may be missing: an array, even an empty
    one, is truthy. *)
Definition arr_or {A} (x : option (list A)) (d : list A) : list A :=
  match x with
  | Some l => l
  | None => d
  end.

Record Url := { url_path : string; url_query : list (string * string) }.

Inductive Method := GET | POST.

Record Request := {
  req_method : Method;
  req_url : Url;
  req_body : option JsObj
}.

(** How a [fetch] settles: it rejects, or it resolves with a response
    whose [json()] resolves or rejects. *)
Inductive FetchOutcome (A : Type) :=
  | NetworkFailure (e : JsError)
  | HttpResponse (ok : bool) (status : Z) (json : Result A).
Arguments NetworkFailure {A} e.
Arguments HttpResponse {A} ok status json.

(** The elements of the page the gallery looks up by id. *)
Record Dom := {
  galleryGrid : bool;
  pagination : bool;
  totalPhotos : bool;
  globalSearch : option string
}.

Inductive Effect :=
  | Fetch (r : Request)
  | ConsoleError (label : string) (e : JsError)
  | Notify (message kind : string)
  | GalleryHtml (cards : list Photo)
  | PaginationHidden
  | PaginationHtml (html : list UIComponents.Markup)
  | TotalPhotosText (n : Z)
  | ScrollTo (x y : Z).

Definition requests (log : list Effect) : list Request :=
  omap (fun e => match e with Fetch r => Some r | _ => None end) log.

Definition notifications (log : list Effect) : list (string * string) :=
  omap (fun e => match e with Notify m k => Some (m, k) | _ => None end) log.

(** ** API service (lines 123-166) *)

Module ApiService.

(** [new URLSearchParams(params)]: name/value pairs in property order,
    each value converted to a string.  The pairs are kept as data;
    their percent-encoding into text is not modelled. *)
Definition URLSearchParams (params : JsObj) : list (string * string) :=
  (fun kv => (fst kv, to_string (snd kv))) <$> params.

(** Lines 126-129: the request [get] issues.  An empty query string
    (no pairs) leaves the bare endpoint, which is the same [Url]. *)
Definition get_request (endpoint : string) (params : JsObj) : Request :=
  let queryString := URLSearchParams params in
  {| req_method := GET;
     req_url := {| url_path := CONFIG.API_URL +:+ endpoint;
                   url_query := queryString |};
     req_body := None |}.

(** Lines 129-135: what [get] does once the fetch has settled. *)
Definition get_settle {A} (endpoint : string) (o : FetchOutcome A)
  : list Effect * Result A :=
  let label := "API GET Error (" +:+ endpoint +:+ "):" in
  match o with
  | NetworkFailure e => ([ConsoleError label e], Throw e)
  | HttpResponse ok status json =>
      if negb ok then
        let e := MkError "Error" ("HTTP " +:+ pretty status) in
        ([ConsoleError label e], Throw e)
      else
        match json with
        | Ok a => ([], Ok a)
        | Throw e => ([ConsoleError label e], Throw e)
        end
  end.

(** Lines 140-146. *)
Definition post_request (endpoint : string) (data : JsObj) : Request :=
  {| req_method := POST;
     req_url := {| url_path := CONFIG.API_URL +:+ endpoint; url_query := [] |};
     req_body := Some data |}.

(** Lines 147-151: [post] does not look at [response.ok]. *)
Definition post_settle {A} (endpoint : string) (o : FetchOutcome A)
  : list Effect * Result A :=
  let label := "API POST Error (" +:+ endpoint +:+ "):" in
  match o with
  | NetworkFailure e => ([ConsoleError label e], Throw e)
  | HttpResponse _ _ (Ok a) => ([], Ok a)
  | HttpResponse _ _ (Throw e) => ([ConsoleError label e], Throw e)
  end.

End ApiService.

(** ** Authentication service: the current user (lines 93-105) *)

Record User := { user_id : Z; username : string; role : string }.

(** [appState], as far as the services read and write it. *)
Record AppState := { currentUser : option User }.

Module AuthService.
Section WithJSON.

(** [JSON.parse] on the stored user: it throws, or yields a value
    that is a user record ([Some]) or falsy ([None]). *)
Variable JSON_parse : string -> Result (option User).

Definition getCurrentUser (st : AppState) (localStorage : gmap string string)
  : AppState * Result (option User) :=
  match currentUser st with
  | Some u => (st, Ok (Some u))
  | None =>
      match localStorage !! "photoapp_user" with
      | Some user =>
          if String.eqb user "" then (st, Ok None)
          else
            match JSON_parse user with
            | Ok v => ({| currentUser := v |}, Ok v)
            | Throw e => (st, Throw e)
            end
      | None => (st, Ok None)
      end
  end.

End WithJSON.

(** *** Logging in and out (lines 27-63, 86-91, 107-119) *)

(** The body of [POST /login]: every field may be missing.  [success]
    is kept by its truthiness. *)
Record LoginResponse := {
  login_success : bool;
  login_user : option User;
  login_error : option string
}.

Inductive LoginJson :=
  | LoginNull
  | LoginObject (data : LoginResponse).

(** The object [login] resolves to. *)
Inductive LoginResult :=
  | LoginSucceeded (user : User) (message : string)
  | LoginFailed (error : string).

(** [x || d] for a text that may be missing: [undefined] and the empty
    text are falsy. *)
Definition str_or (x : option string) (d : string) : string :=
  match x with
  | Some s => if String.eqb s "" then d else s
  | None => d
  end.

(** Lines 29-35: the request [login] issues. *)
Definition login_request (username password : string) : Request :=
  {| req_method := POST;
     req_url := {| url_path := CONFIG.API_URL +:+ "/login"; url_query := [] |};
     req_body := Some [("username", VStr username);
                       ("password", VStr password)] |}.




Section Session.

Variable JSON_parse : string -> Result (option User).
Variable JSON_stringify : User -> string.

(** Lines 56-62: the [catch] block of [login]. *)
Definition login_catch (st : AppState) (localStorage : gmap string string)
    (e : JsError)
  : AppState * gmap string string * list Effect * LoginResult :=
  (st, localStorage, [ConsoleError "Login error:" e],
   LoginFailed "Network error. Please try again.").

(** Lines 37-62: [login] once its request has settled.  The response
    status is not looked at. *)
Definition login_settle (st : AppState) (localStorage : gmap string string)
    (o : FetchOutcome LoginJson)
  : AppState * gmap string string * list Effect * LoginResult :=
  match o with
  | NetworkFailure e => login_catch st localStorage e
  | HttpResponse _ _ (Throw e) => login_catch st localStorage e
  | HttpResponse _ _ (Ok LoginNull) =>
      login_catch st localStorage
        (MkError "TypeError"
                 "Cannot read properties of null (reading 'success')")
  | HttpResponse _ _ (Ok (LoginObject data)) =>
      match login_success data, login_user data with
      | true, Some user =>
          (* Save user to localStorage *)
          let localStorage :=
            <["photoapp_user" := JSON_stringify user]> localStorage in
          let localStorage :=
            <["photoapp_token" := "authenticated"]> localStorage in
          ({| currentUser := Some user |}, localStorage, [],
           LoginSucceeded user "Login successful")
      | _, _ =>
          (st, localStorage, [],
           LoginFailed (str_or (login_error data) "Invalid credentials"))
      end
  end.

(** Lines 86-91; the third component is the new [window.location.href]. *)
Definition logout (st : AppState) (localStorage : gmap string string)
  : AppState * gmap string string * string :=
  let localStorage := delete "photoapp_user" localStorage in
  let localStorage := delete "photoapp_token" localStorage in
  ({| currentUser := None |}, localStorage, "index.html").

(** Lines 107-109. *)
Definition isAuthenticated (localStorage : gmap string string) : bool :=
  match localStorage !! "photoapp_token" with
  | Some _ => true
  | None => false
  end.

(** Lines 111-114, by the truthiness of what is returned. *)
Definition isCreator (st : AppState) (localStorage : gmap string string)
  : AppState * Result bool :=
  match getCurrentUser JSON_parse st localStorage with
  | (st, Ok (Some user)) => (st, Ok (String.eqb (role user) "creator"))
  | (st, Ok None) => (st, Ok false)
  | (st, Throw e) => (st, Throw e)
  end.

(** Lines 116-119, by the truthiness of what is returned. *)
Definition isConsumer (st : AppState) (localStorage : gmap string string)
  : AppState * Result bool :=
  match getCurrentUser JSON_parse st localStorage with
  | (st, Ok (Some user)) => (st, Ok (String.eqb (role user) "consumer"))
  | (st, Ok None) => (st, Ok false)
  | (st, Throw e) => (st, Throw e)
  end.

(** A page load: [appState] starts afresh (lines 11-23), the storage is
    kept. *)
Definition reload (localStorage : gmap string string)
  : AppState * gmap string string :=
  ({| currentUser := None |}, localStorage).

End Session.
End AuthService.

(** ** Photo service (lines 169-220) *)

(** The gallery's filters (lines 492-497). *)
Record Filters := {
  search : string;
  sort : string;
  location : string;
  minRating : Z
}.

(** The filters as the object the source spreads. *)
Definition Filters_obj (f : Filters) : JsObj :=
  [("search", VStr (search f)); ("sort", VStr (sort f));
   ("location", VStr (location f)); ("minRating", VNum (minRating f))].

Module PhotoService.

(** Lines 171-175: [{ page, limit, ...filters }]. *)
Definition getPhotos_params (page : Z) (filters : JsObj) : JsObj :=
  obj_spread [("page", VNum page); ("limit", VNum CONFIG.ITEMS_PER_PAGE)]
             filters.

Definition getPhotos_request (page : Z) (filters : JsObj) : Request :=
  ApiService.get_request "/photos" (getPhotos_params page filters).

Definition getPhotos_settle (o : FetchOutcome PhotosJson)
  : list Effect * Result PhotosJson :=
  ApiService.get_settle "/photos" o.

Section WithJSON.
Variable JSON_parse : string -> Result (option User).

(** [addComment] and [ratePhoto] up to their [await]: [Ok tt] means
    the POST is under way, [Throw] that the promise is rejected. *)

(** Lines 201-209. *)
Definition addComment (photoId : Z) (comment : string)
    (st : AppState) (localStorage : gmap string string)
  : AppState * list Effect * Result unit :=
  match AuthService.getCurrentUser JSON_parse st localStorage with
  | (st, Throw e) => (st, [], Throw e)
  | (st, Ok None) =>
      (st, [], Throw (MkError "Error" "User must be logged in to comment"))
  | (st, Ok (Some user)) =>
      (st,
       [Fetch (ApiService.post_request
                 ("/photos/" +:+ pretty photoId +:+ "/comments")
                 [("user_id", VNum (user_id user));
                  ("comment", VStr comment)])],
       Ok tt)
  end.

(** Lines 211-219. *)
Definition ratePhoto (photoId : Z) (rating : Z)
    (st : AppState) (localStorage : gmap string string)
  : AppState * list Effect * Result unit :=
  match AuthService.getCurrentUser JSON_parse st localStorage with
  | (st, Throw e) => (st, [], Throw e)
  | (st, Ok None) =>
      (st, [], Throw (MkError "Error" "User must be logged in to rate"))
  | (st, Ok (Some user)) =>
      (st,
       [Fetch (ApiService.post_request
                 ("/photos/" +:+ pretty photoId +:+ "/rate")
                 [("user_id", VNum (user_id user));
                  ("rating", VNum rating)])],
       Ok tt)
  end.

End WithJSON.

End PhotoService.

(** ** Photo gallery manager (lines 489-587) *)

(** How a statement that may throw ends. *)
Inductive StmtOutcome :=
  | Completes
  | Throws (e : JsError).

Module PhotoGallery.

(** The static fields.  [photos] is not declared by the class: it is
    [undefined] ([None]) until the first successful load. *)
Record Gallery := {
  currentPage : Z;
  totalPages : Z;
  filters : Filters;
  photos : option (list Photo)
}.

(** Lines 490-497. *)
Definition initial : Gallery :=
  {| currentPage := 1;
     totalPages := 1;
     filters := {| search := ""; sort := "newest";
                   location := "all"; minRating := 0 |};
     photos := None |}.

Definition set_currentPage (g : Gallery) (p : Z) : Gallery :=
  {| currentPage := p; totalPages := totalPages g;
     filters := filters g; photos := photos g |}.

Definition set_totalPages (g : Gallery) (t : Z) : Gallery :=
  {| currentPage := currentPage g; totalPages := t;
     filters := filters g; photos := photos g |}.

Definition set_photos (g : Gallery) (ps : list Photo) : Gallery :=
  {| currentPage := currentPage g; totalPages := totalPages g;
     filters := filters g; photos := Some ps |}.

Definition set_search (g : Gallery) (s : string) : Gallery :=
  {| currentPage := currentPage g; totalPages := totalPages g;
     filters := {| search := s; sort := sort (filters g);
                   location := location (filters g);
                   minRating := minRating (filters g) |};
     photos := photos g |}.

(** Lines 522-540. *)
Definition renderPhotos (dom : Dom) (g : Gallery) : list Effect :=
  if negb (galleryGrid dom) then []
  else [GalleryHtml (arr_or (photos g) [])].

(** Lines 542-553. *)
Definition renderPagination (dom : Dom) (g : Gallery) : list Effect :=
  if negb (pagination dom) then []
  else if totalPages g <=? 1 then [PaginationHidden]
  else [PaginationHtml
          (UIComponents.createPagination (currentPage g) (totalPages g))].

(** Line 501 up to the [await]: the request [loadPhotos] issues. *)
Definition loadPhotos_request (g : Gallery) : Request :=
  PhotoService.getPhotos_request (currentPage g) (Filters_obj (filters g)).

(** Lines 515-519: the [catch] block. *)
Definition loadPhotos_catch (e : JsError) : list Effect :=
  [ConsoleError "Error loading photos:" e;
   Notify "Failed to load photos" "error"].

(** Lines 501-519 from the [await] on: what [loadPhotos] does once its
    request has settled with [o].

    The statement of line 511 has an optional chain as the target of
    an assignment, which JavaScript does not accept as a target.  Its
    outcome when reached is the argument [stats]: it completes
    (writing the count into the element when there is one) or it
    throws inside the [try]. *)
Definition loadPhotos_settle (stats : StmtOutcome) (dom : Dom) (g : Gallery)
    (o : FetchOutcome PhotosJson)
  : Gallery * list Effect * Result PhotosJson :=
  match PhotoService.getPhotos_settle o with
  | (log, Throw e) => (g, log ++ loadPhotos_catch e, Throw e)
  | (log, Ok JsonNull) =>
      let e := MkError "TypeError"
                 "Cannot read properties of null (reading 'photos')" in
      (g, log ++ loadPhotos_catch e, Throw e)
  | (log, Ok (JsonObject response)) =>
      let g := set_photos g (arr_or (resp_photos response) []) in
      let g := set_totalPages g
                 (num_or (match resp_pagination response with
                          | Some p => pages p
                          | None => None
                          end) 1) in
      let log := log ++ renderPhotos dom g in
      let log := log ++ renderPagination dom g in
      (* Update stats *)
      match resp_pagination response with
      | Some p =>
          match stats with
          | Completes =>
              let log :=
                if totalPhotos dom
                then log ++ [TotalPhotosText (num_or (total p) 0)]
                else log in
              (g, log, Ok (JsonObject response))
          | Throws e => (g, log ++ loadPhotos_catch e, Throw e)
          end
      | None => (g, log, Ok (JsonObject response))
      end
  end.

(** A whole [loadPhotos] with nothing in between: the request, then
    the continuation. *)
Definition loadPhotos (stats : StmtOutcome) (dom : Dom) (g : Gallery)
    (o : FetchOutcome PhotosJson)
  : Gallery * list Effect * Result PhotosJson :=
  let '(g', log, r) := loadPhotos_settle stats dom g o in
  (g', Fetch (loadPhotos_request g) :: log, r).

(** Lines 571-578, up to the return of the handler. *)
Definition searchPhotos (dom : Dom) (g : Gallery) : Gallery * list Effect :=
  match globalSearch dom with
  | Some value =>
      let g := set_search g value in
      let g := set_currentPage g 1 in
      (g, [Fetch (loadPhotos_request g)])
  | None => (g, [])
  end.

(** Lines 580-586, up to the return of the handler. *)
Definition goToPage (page : Z) (g : Gallery) : Gallery * list Effect :=
  if (1 <=? page) && (page <=? totalPages g) then
    let g := set_currentPage g page in
    (g, [Fetch (loadPhotos_request g); ScrollTo 0 0])
  else (g, []).

(** *** The view state as a machine

    The gallery together with the requests still under way.  A
    request settles at any later time, in any order. *)
Record View := { gallery : Gallery; pending : list Request }.

Inductive Event :=
  | Search
  | GoToPage (page : Z)
  | Load
  | Settle (i : nat) (o : FetchOutcome PhotosJson) (stats : StmtOutcome).

Definition start : View := {| gallery := initial; pending := [] |}.

Definition step (dom : Dom) (v : View) (ev : Event) : View * list Effect :=
  match ev with
  | Search =>
      let '(g, log) := searchPhotos dom (gallery v) in
      ({| gallery := g; pending := pending v ++ requests log |}, log)
  | GoToPage page =>
      let '(g, log) := goToPage page (gallery v) in
      ({| gallery := g; pending := pending v ++ requests log |}, log)
  | Load =>
      let r := loadPhotos_request (gallery v) in
      ({| gallery := gallery v; pending := pending v ++ [r] |}, [Fetch r])
  | Settle i o stats =>
      match pending v !! i with
      | Some _ =>
          let '(g, log, _) := loadPhotos_settle stats dom (gallery v) o in
          ({| gallery := g; pending := delete i (pending v) |}, log)
      | None => (v, [])
      end
  end.

Fixpoint run (v : View) (evs : list (Dom * Event)) : View :=
  match evs with
  | [] => v
  | (dom, ev) :: evs' => run (fst (step dom v ev)) evs'
  end.

(** 1 <= currentPage <= totalPages. *)
Definition page_in_range (g : Gallery) : Prop :=
  1 <= currentPage g <= totalPages g.

End PhotoGallery.

(** ** Utility functions (lines 223-285) *)

Module Utils.

(** Text whose characters matter: a sequence of UTF-16 code units. *)
Definition JsString := list N.

(** *** Regular expressions

    Patterns without groups to capture, tested against a whole text
    (the pattern of line 278 is anchored by [^] and [$]). *)
Inductive regex :=
  | Void
  | Eps
  | Cls (p : N -> bool)
  | Alt (r s : regex)
  | Seq (r s : regex)
  | Star (r : regex).

(** [r+] *)
Definition Plus (r : regex) : regex := Seq r (Star r).

(** The texts a pattern matches. *)
Inductive matches : regex -> JsString -> Prop :=
  | m_eps : matches Eps []
  | m_cls p c : p c = true -> matches (Cls p) [c]
  | m_alt_l r s w : matches r w -> matches (Alt r s) w
  | m_alt_r r s w : matches s w -> matches (Alt r s) w
  | m_seq r s w1 w2 : matches r w1 -> matches s w2 -> matches (Seq r s) (w1 ++ w2)
  | m_star_nil r : matches (Star r) []
  | m_star_app r w1 w2 :
      matches r w1 -> matches (Star r) w2 -> matches (Star r) (w1 ++ w2).

Fixpoint nullable (r : regex) : bool :=
  match r with
  | Void => false
  | Eps => true
  | Cls _ => false
  | Alt r s => nullable r || nullable s
  | Seq r s => nullable r && nullable s
  | Star _ => true
  end.

(** What is left of a pattern after the code unit [c]. *)
Fixpoint deriv (c : N) (r : regex) : regex :=
  match r with
  | Void => Void
  | Eps => Void
  | Cls p => if p c then Eps else Void
  | Alt r s => Alt (deriv c r) (deriv c s)
  | Seq r s =>
      if nullable r
      then Alt (Seq (deriv c r) s) (deriv c s)
      else Seq (deriv c r) s
  | Star r => Seq (deriv c r) (Star r)
  end.

(** [re.test(text)] for an anchored pattern. *)
Fixpoint test (r : regex) (text : JsString) : bool :=
  match text with
  | [] => nullable r
  | c :: text' => test (deriv c r) text'
  end.

Definition at_sign : N := 64.
Definition full_stop : N := 46.

Section WithSpace.

(** The class [\s] of the engine. *)
Variable isSpace : N -> bool.

(** [[^\s@]] *)
Definition notSpaceAt (c : N) : bool :=
  negb (isSpace c) && negb (c =? at_sign)%N.

(** Line 278: [/^[^\s@]+@[^\s@]+\.[^\s@]+$/]. *)
Definition emailPattern : regex :=
  Seq (Plus (Cls notSpaceAt))
      (Seq (Cls (N.eqb at_sign))
           (Seq (Plus (Cls notSpaceAt))
                (Seq (Cls (N.eqb full_stop))
                     (Plus (Cls notSpaceAt))))).

(** Lines 277-280. *)
Definition validateEmail (email : JsString) : bool :=
  test emailPattern email.

End WithSpace.

(** Lines 282-284. *)
Definition validatePassword (password : JsString) : bool :=
  (6 <=? length password)%nat.

(** *** Notifications (lines 241-263)

    The notification elements of the page in document order.  An
    element is told from the others by the number under which it was
    created, as the closures of lines 252 and 258 hold on to their own
    element. *)
Record Notification := {
  note_id : nat;
  note_message : string;
  note_kind : string
}.

Record Page := { notes : list Notification; created : nat }.

(** Line 250: the icon shown for a kind of notification. *)
Definition icon (kind : string) : string :=
  if String.eqb kind "success" then "check-circle"
  else if String.eqb kind "error" then "exclamation-circle"
  else "info-circle".

(** [element.remove()] for the element created as [id]; nothing happens
    when it is no longer in the page. *)
Definition remove_note (id : nat) (page : Page) : Page :=
  {| notes := List.filter (fun n => negb (Nat.eqb (note_id n) id)) (notes page);
     created := created page |}.

(** Lines 241-256: up to the start of the timer. *)
Definition showNotification (message kind : string) (page : Page) : Page :=
  (* Remove existing notification *)
  let remaining :=
    match notes page with
    | [] => []
    | existing :: others => others
    end in
  (* Create new notification *)
  let notification :=
    {| note_id := created page; note_message := message; note_kind := kind |} in
  {| notes := remaining ++ [notification]; created := S (created page) |}.

(** What can happen to the notifications: a call of [showNotification],
    the timer of a notification running out (lines 258-262), a click on
    the close button of one (line 252). *)
Inductive NoteEvent :=
  | Show (message kind : string)
  | TimedOut (id : nat)
  | Closed (id : nat).

Definition note_step (page : Page) (ev : NoteEvent) : Page :=
  match ev with
  | Show message kind => showNotification message kind page
  | TimedOut id => remove_note id page
  | Closed id => remove_note id page
  end.

Definition note_run (page : Page) (evs : list NoteEvent) : Page :=
  fold_left note_step evs page.

Definition blank_page : Page := {| notes := []; created := 0 |}.

End Utils.

(** ** The form handlers (lines 634-695) *)

Module Handlers.

(** What the register form holds when it is submitted (lines 668-673). *)
Record UserData := {
  reg_username : Utils.JsString;
  reg_email : Utils.JsString;
  reg_password : Utils.JsString;
  reg_role : Utils.JsString
}.

(** Lines 675-686: the checks of the register handler.  [Some userData]
    stands for the call [AuthService.register(userData)]. *)
Definition registerForm_submit (isSpace : N -> bool) (userData : UserData)
  : list Effect * option UserData :=
  (* Validate *)
  if negb (Utils.validateEmail isSpace (reg_email userData)) then
    ([Notify "Please enter a valid email" "error"], None)
  else if negb (Utils.validatePassword (reg_password userData)) then
    ([Notify "Password must be at least 6 characters" "error"], None)
  else ([], Some userData).



End Handlers.

(** ** Initialization (lines 590-611) *)

Module Initialization.

(** [path.split('/').pop()]: what follows the last slash; [segment] is
    what has been read since the last slash seen. *)
Fixpoint pop_split (path segment : list ascii) : list ascii :=
  match path with
  | [] => segment
  | c :: path' =>
      if Ascii.eqb c "/"%char then pop_split path' []
      else pop_split path' (segment ++ [c])
  end.

Definition consumer_html : list ascii := String.list_ascii_of_string "consumer.html".

Definition list_ascii_eqb (a b : list ascii) : bool :=
  String.eqb (String.string_of_list_ascii a) (String.string_of_list_ascii b).

(** The listener of lines 590-611, up to its return.  Updating the
    navigation for the user and attaching the form listeners touch the
    page only and are left out. *)
Definition DOMContentLoaded (JSON_parse : string -> Result (option User))
    (dom : Dom) (pathname : list ascii) (st : AppState)
    (localStorage : gmap string string) (v : PhotoGallery.View)
  : AppState * PhotoGallery.View * list Effect * Result unit :=
  (* Check authentication *)
  match AuthService.getCurrentUser JSON_parse st localStorage with
  | (st, Throw e) => (st, v, [], Throw e)
  | (st, Ok user) =>
      let st :=
        match user with
        | Some u => {| currentUser := Some u |}
        | None => st
        end in
      (* Check current page and initialize accordingly *)
      let page := pop_split pathname [] in
      if list_ascii_eqb page consumer_html || list_ascii_eqb page [] then
        (* Initialize gallery *)
        let '(v, log) := PhotoGallery.step dom v PhotoGallery.Load in
        (st, v, log, Ok tt)
      else (st, v, [], Ok tt)
  end.

End Initialization.

(** ** Definitions used to state the results *)

(** [URLSearchParams.get]: the first value recorded under a name. *)
Fixpoint query_get (q : list (string * string)) (name : string) : option string :=
  match q with
  | [] => None
  | (k, v) :: q' => if String.eqb k name then Some v else query_get q' name
  end.

(** The tokens [createPagination] puts on each side of the window. *)
Definition leftEdge (start : Z) : list UIComponents.Markup :=
  if 1 <? start then
    UIComponents.EdgeBtn 1 :: (if 2 <? start then [UIComponents.Dots] else [])
  else [].

Definition rightEdge (end_ totalPages : Z) : list UIComponents.Markup :=
  if end_ <? totalPages then
    (if end_ <? totalPages - 1 then [UIComponents.Dots] else [])
      ++ [UIComponents.EdgeBtn totalPages]
  else [].

(** No window button among the tokens. *)
Definition noPageBtn (l : list UIComponents.Markup) : Prop :=
  Forall (fun m => UIComponents.isPageBtn m = false) l.

(** A fetch that failed: no response at all, or a response that is not
    a success. *)
Definition fetch_failed {A} (o : FetchOutcome A) : bool :=
  match o with
  | NetworkFailure _ => true
  | HttpResponse ok _ _ => negb ok
  end.

(** The error a failed fetch ends in: the rejection itself, or the
    [Error] of line 130. *)
Definition failure_of {A} (o : FetchOutcome A) : JsError :=
  match o with
  | NetworkFailure e => e
  | HttpResponse _ status _ => MkError "Error" ("HTTP " +:+ pretty status)
  end.

(** The page count a response reports, if any. *)
Definition reported_pages (r : PhotosResponse) : option Z :=
  match resp_pagination r with
  | Some p => pages p
  | None => None
  end.

(** A response body with [n] pages and no photos. *)
Definition body_with_pages (n : Z) : FetchOutcome PhotosJson :=
  HttpResponse true 200
    (Ok (JsonObject {| resp_photos := Some [];
                       resp_pagination := Some {| pages := Some n;
                                                  total := Some 0 |} |})).

Definition no_dom : Dom :=
  {| galleryGrid := false; pagination := false; totalPhotos := false;
     globalSearch := None |}.

(** The condition under which a settling request keeps the page within
    range: a successful object response must report at least as many
    pages as the current page. *)
Definition settles_in_range (g : PhotoGallery.Gallery) (ev : PhotoGallery.Event)
  : Prop :=
  match ev with
  | PhotoGallery.Settle _ (HttpResponse true _ (Ok (JsonObject r))) _ =>
      PhotoGallery.currentPage g <= num_or (reported_pages r) 1
  | _ => True
  end.

(** Every request of a run settles that way. *)
Fixpoint well_served (v : PhotoGallery.View)
    (evs : list (Dom * PhotoGallery.Event)) : Prop :=
  match evs with
  | [] => True
  | (dom, ev) :: evs' =>
      settles_in_range (PhotoGallery.gallery v) ev
      /\ well_served (fst (PhotoGallery.step dom v ev)) evs'
  end.

(** A visit: first load (10 pages reported), then a jump to page 5. *)
Definition visit_page_5 : list (Dom * PhotoGallery.Event) :=
  [(no_dom, PhotoGallery.Load);
   (no_dom, PhotoGallery.Settle 0 (body_with_pages 10) Completes);
   (no_dom, PhotoGallery.GoToPage 5)].

Definition three_pages : PhotoGallery.Gallery :=
  PhotoGallery.set_totalPages PhotoGallery.initial 3.

Definition search_box (x : string) : Dom :=
  {| galleryGrid := true; pagination := true; totalPhotos := true;
     globalSearch := Some x |}.

Definition alice : User := {| user_id := 7; username := "alice"; role := "consumer" |}.

(** A stand-in for [JSON.parse] that finds no user in any text. *)
Definition parse_nothing : string -> Result (option User) := fun _ => Ok None.

Definition fetch_rejected : FetchOutcome PhotosJson :=
  NetworkFailure (MkError "TypeError" "Failed to fetch").

Definition empty_body : PhotosResponse :=
  {| resp_photos := None; resp_pagination := None |}.

Definition blank_search_filters : Filters :=
  {| search := ""; sort := "rating"; location := "all"; minRating := 3 |}.

(** ** Definitions used to state the further results *)

(** A non-empty run of code units that are neither white space nor
    the at sign. *)
Definition email_part (isSpace : N -> bool) (w : Utils.JsString) : Prop :=
  w <> [] /\ Forall (fun c => isSpace c = false /\ c <> Utils.at_sign) w.

(** How often a code unit occurs in a text. *)
Definition occurrences (c : N) (w : Utils.JsString) : nat :=
  length (List.filter (N.eqb c) w).

(** The white space and line terminators of ECMAScript. *)
Definition ecma_space (c : N) : bool :=
  (existsb (N.eqb c)
     [9; 10; 11; 12; 13; 32; 160; 5760; 8232; 8233; 8239; 8287; 12288; 65279]
   || ((8192 <=? c) && (c <=? 8202)))%N.

(** The code units of [a@b.c] and of [secret]. *)
Definition short_email : Utils.JsString := [97; 64; 98; 46; 99]%N.
Definition six_units : Utils.JsString := [115; 101; 99; 114; 101; 116]%N.

Definition sample_userData : Handlers.UserData :=
  {| Handlers.reg_username := [97]%N;
     Handlers.reg_email := short_email;
     Handlers.reg_password := six_units;
     Handlers.reg_role := [] |}.

(** Stand-ins for [JSON.stringify] and [JSON.parse] that agree on
    [alice]. *)
Definition stringify_name (u : User) : string := username u.

Definition parse_alice (text : string) : Result (option User) :=
  if String.eqb text "alice" then Ok (Some alice)
  else Throw (MkError "SyntaxError" "Unexpected token").

(** A response to [POST /login] that accepts [alice]. *)
Definition alice_accepted : FetchOutcome AuthService.LoginJson :=
  HttpResponse true 200
    (Ok (AuthService.LoginObject
           {| AuthService.login_success := true;
              AuthService.login_user := Some alice;
              AuthService.login_error := None |})).

Definition signed_out : AppState := {| currentUser := None |}.

(** The page a click on a control asks [goToPage] for; a disabled
    button and an ellipsis ask for nothing. *)
Definition clickTarget (m : UIComponents.Markup) : option Z :=
  match m with
  | UIComponents.PrevBtn target disabled
  | UIComponents.NextBtn target disabled =>
      if disabled then None else Some target
  | UIComponents.EdgeBtn page => Some page
  | UIComponents.PageBtn page _ => Some page
  | UIComponents.Dots => None
  end.

(** The page numbers on show, edge buttons included, in order. *)
Definition shownPages (html : list UIComponents.Markup) : list Z :=
  omap (fun m => match m with
                 | UIComponents.EdgeBtn p => Some p
                 | UIComponents.PageBtn p _ => Some p
                 | _ => None
                 end) html.

(** The pages whose button is marked active. *)
Definition activePages (html : list UIComponents.Markup) : list Z :=
  omap (fun m => match m with
                 | UIComponents.PageBtn p true => Some p
                 | _ => None
                 end) html.

Fixpoint increasing (l : list Z) : bool :=
  match l with
  | x :: (y :: _) as l' => (x <? y) && increasing l'
  | _ => true
  end.

(** What a log put into the gallery grid and into the pagination bar
    ([None]: the bar was hidden). *)
Definition gallery_renders (log : list Effect) : list (list Photo) :=
  omap (fun e => match e with GalleryHtml cards => Some cards | _ => None end)
       log.

Definition pagination_renders (log : list Effect)
  : list (option (list UIComponents.Markup)) :=
  omap (fun e => match e with
                 | PaginationHidden => Some None
                 | PaginationHtml html => Some (Some html)
                 | _ => None
                 end) log.

(** A successful response with the given body. *)
Definition ok_body (r : PhotosResponse) : FetchOutcome PhotosJson :=
  HttpResponse true 200 (Ok (JsonObject r)).

Definition full_dom : Dom :=
  {| galleryGrid := true; pagination := true; totalPhotos := true;
     globalSearch := None |}.

(** No slash among the characters. *)
Definition no_slash (l : list ascii) : Prop :=
  Forall (fun c => c <> "/"%char) l.

Definition consumer_path : list ascii :=
  String.list_ascii_of_string "/app/consumer.html".

(** A storage that holds the text written for [alice]. *)
Definition alice_stored : gmap string string :=
  {["photoapp_user" := "alice"]}.

Definition server_error_body : FetchOutcome nat :=
  HttpResponse false 500 (Ok 7%nat).

Definition saved_note : list Utils.NoteEvent :=
  [Utils.Show "Saved" "success"].

(** * Results *)

(** ** Pagination *)

Section Pagination.
Import UIComponents.

(** Case analysis on the test of line 350, then linear arithmetic. *)
Ltac window_cases :=
  unfold pageWindow, maxVisible; change (5 / 2) with 2;
  match goal with
  | |- context [?x <? 5] => destruct (Z.ltb_spec x 5)
  end;
  cbn [fst snd]; lia.

Lemma pageWindow_spec_window c t : pageWindow c t = spec_window 5 c t.
Proof.
  unfold pageWindow, spec_window, maxVisible.
  destruct (_ <? 5); reflexivity.
Qed.

Lemma pageWindow_in_range c t :
  1 <= c <= t ->
  1 <= fst (pageWindow c t)
  /\ fst (pageWindow c t) <= c <= snd (pageWindow c t)
  /\ snd (pageWindow c t) <= t
  /\ snd (pageWindow c t) - fst (pageWindow c t) + 1 = Z.min 5 t.
Proof. intros Hc. window_cases. Qed.

Lemma pageWindow_centered c t :
  3 <= c <= t - 2 ->
  fst (pageWindow c t) = c - 2 /\ snd (pageWindow c t) = c + 2.
Proof. intros Hc. window_cases. Qed.

(** The tokens come in five groups. *)
Lemma createPagination_shape c t :
  createPagination c t =
    PrevBtn (c - 1) (c =? 1)
      :: leftEdge (fst (pageWindow c t))
      ++ pageButtons c (fst (pageWindow c t)) (snd (pageWindow c t))
      ++ rightEdge (snd (pageWindow c t)) t
      ++ [NextBtn (c + 1) (c =? t)].
Proof.
  unfold createPagination, leftEdge, rightEdge.
  destruct (pageWindow c t) as [s e]; cbn [fst snd].
  destruct (1 <? s), (2 <? s), (e <? t), (e <? t - 1); cbn [app];
    rewrite <- ?app_assoc; reflexivity.
Qed.

Lemma windowPages_app l1 l2 :
  windowPages (l1 ++ l2) = windowPages l1 ++ windowPages l2.
Proof. apply omap_app. Qed.

Lemma windowPages_pageButtons c s e :
  windowPages (pageButtons c s e) = seqZ s (e - s + 1).
Proof.
  unfold windowPages, pageButtons.
  induction (seqZ s (e - s + 1)) as [|i l IH]; [reflexivity|].
  cbn. now rewrite IH.
Qed.

Lemma windowPages_leftEdge s : windowPages (leftEdge s) = [].
Proof. unfold leftEdge. now destruct (1 <? s), (2 <? s). Qed.

Lemma windowPages_rightEdge e t : windowPages (rightEdge e t) = [].
Proof. unfold rightEdge. now destruct (e <? t), (e <? t - 1). Qed.

Lemma windowPages_createPagination c t :
  windowPages (createPagination c t) =
    seqZ (fst (pageWindow c t))
         (snd (pageWindow c t) - fst (pageWindow c t) + 1).
Proof.
  rewrite createPagination_shape.
  change (windowPages (PrevBtn ?a ?b :: ?l)) with (windowPages l).
  rewrite !windowPages_app.
  rewrite windowPages_leftEdge, windowPages_pageButtons, windowPages_rightEdge.
  cbn. apply app_nil_r.
Qed.

(** C3.  For 1 <= c <= t the window buttons rendered are the pages
    [start..end] of the specification's window of size 5; there are
    exactly min(5, t) of them, the current page is one of them, and it
    sits in the middle whenever two pages exist on each side of it. *)
Theorem createPagination_window c t :
  1 <= c <= t ->
  let s := fst (spec_window 5 c t) in
  let e := snd (spec_window 5 c t) in
  windowPages (createPagination c t) = seqZ s (e - s + 1)
  /\ Z.of_nat (length (windowPages (createPagination c t))) = Z.min 5 t
  /\ c ∈ windowPages (createPagination c t)
  /\ (3 <= c <= t - 2 -> s = c - 2 /\ e = c + 2).
Proof.
  intros Hc. cbn zeta. rewrite <- pageWindow_spec_window.
  rewrite windowPages_createPagination.
  destruct (pageWindow_in_range c t Hc) as (Hs & Hin & He & Hn).
  split; [reflexivity|]. split; [|split].
  - rewrite length_seqZ. lia.
  - apply elem_of_seqZ. lia.
  - apply pageWindow_centered.
Qed.

(** *** Edge buttons and ellipses *)

Lemma beforeWindow_noPageBtn l1 l2 :
  noPageBtn l1 -> beforeWindow (l1 ++ l2) = l1 ++ beforeWindow l2.
Proof.
  induction 1 as [|m l1 Hm _ IH]; [reflexivity|].
  cbn. rewrite Hm. now rewrite IH.
Qed.

Lemma noPageBtn_rev l : noPageBtn l -> noPageBtn (rev l).
Proof. apply Forall_rev. Qed.

Lemma afterWindow_noPageBtn l1 l2 :
  noPageBtn l2 -> afterWindow (l1 ++ l2) = afterWindow l1 ++ l2.
Proof.
  intros Hl. unfold afterWindow.
  rewrite rev_app_distr, beforeWindow_noPageBtn by now apply noPageBtn_rev.
  now rewrite rev_app_distr, rev_involutive.
Qed.

Lemma noPageBtn_leftEdge s : noPageBtn (leftEdge s).
Proof.
  unfold leftEdge, noPageBtn.
  destruct (1 <? s), (2 <? s); repeat constructor.
Qed.

Lemma noPageBtn_rightEdge e t : noPageBtn (rightEdge e t).
Proof.
  unfold rightEdge, noPageBtn.
  destruct (e <? t), (e <? t - 1); repeat constructor.
Qed.

Lemma pageButtons_nil c s e : e < s -> pageButtons c s e = [].
Proof. intros H. unfold pageButtons. now rewrite seqZ_nil by lia. Qed.

Lemma pageButtons_first c s e :
  s <= e ->
  pageButtons c s e = PageBtn s (s =? c) :: pageButtons c (s + 1) e.
Proof.
  intros H. unfold pageButtons. rewrite seqZ_cons by lia. cbn.
  do 2 f_equal. f_equal; lia.
Qed.

Lemma pageButtons_last c s e :
  s <= e ->
  pageButtons c s e = pageButtons c s (e - 1) ++ [PageBtn e (e =? c)].
Proof.
  intros H. unfold pageButtons.
  replace (e - s + 1) with ((e - 1 - s + 1) + 1) by lia.
  rewrite seqZ_app by lia. rewrite fmap_app.
  rewrite (seqZ_cons _ 1) by lia. cbn.
  replace (s + (e - 1 - s + 1)) with e by lia. reflexivity.
Qed.

(** What stands on each side of a window that has at least one page. *)
Lemma sides_of_shape c t s e pt pd nt nd :
  s <= e ->
  let html := PrevBtn pt pd
                :: leftEdge s ++ pageButtons c s e
                ++ rightEdge e t ++ [NextBtn nt nd] in
  beforeWindow html = PrevBtn pt pd :: leftEdge s
  /\ afterWindow html = rightEdge e t ++ [NextBtn nt nd].
Proof.
  intros Hse html. subst html. split.
  - rewrite (pageButtons_first c s e Hse).
    change (PrevBtn pt pd :: leftEdge s ++ ?l)
      with ((PrevBtn pt pd :: leftEdge s) ++ l).
    rewrite beforeWindow_noPageBtn.
    + cbn [beforeWindow isPageBtn]. apply app_nil_r.
    + constructor; [reflexivity | apply noPageBtn_leftEdge].
  - rewrite (pageButtons_last c s e Hse).
    set (tail := rightEdge e t ++ [NextBtn nt nd]).
    replace (PrevBtn pt pd
               :: leftEdge s
               ++ (pageButtons c s (e - 1) ++ [PageBtn e (e =? c)]) ++ tail)
      with (((PrevBtn pt pd :: leftEdge s
                ++ pageButtons c s (e - 1)) ++ [PageBtn e (e =? c)]) ++ tail)
      by (rewrite <- !app_comm_cons, <- !app_assoc; reflexivity).
    rewrite afterWindow_noPageBtn.
    + unfold afterWindow at 1. rewrite rev_app_distr. reflexivity.
    + subst tail. apply Forall_app. split.
      * apply noPageBtn_rightEdge.
      * repeat constructor.
Qed.

Lemma sides_of_window c t :
  fst (pageWindow c t) <= snd (pageWindow c t) ->
  beforeWindow (createPagination c t)
    = PrevBtn (c - 1) (c =? 1) :: leftEdge (fst (pageWindow c t))
  /\ afterWindow (createPagination c t)
    = rightEdge (snd (pageWindow c t)) t ++ [NextBtn (c + 1) (c =? t)].
Proof.
  intros Hse. rewrite createPagination_shape.
  now apply sides_of_shape.
Qed.

(** A window without pages has nothing beside it either. *)
Lemma empty_window c t :
  snd (pageWindow c t) < fst (pageWindow c t) ->
  fst (pageWindow c t) = 1 /\ snd (pageWindow c t) = t /\ t < 1.
Proof. window_cases. Qed.

Lemma has_cons m x l : has m (x :: l) = Markup_eqb m x || has m l.
Proof. reflexivity. Qed.

Lemma has_app m l1 l2 : has m (l1 ++ l2) = has m l1 || has m l2.
Proof. apply existsb_app. Qed.

(** C5, as the code has it.  Left of the window the button for page 1
    is shown exactly when start > 1, and an ellipsis exactly when
    start > 2; right of the window the button for the last page is
    shown exactly when end < t, and an ellipsis exactly when
    end < t - 1. *)
Theorem createPagination_edges c t :
  let s := fst (pageWindow c t) in
  let e := snd (pageWindow c t) in
  let html := createPagination c t in
  has (EdgeBtn 1) (beforeWindow html) = (1 <? s)
  /\ has Dots (beforeWindow html) = (2 <? s)
  /\ has (EdgeBtn t) (afterWindow html) = (e <? t)
  /\ has Dots (afterWindow html) = (e <? t - 1).
Proof.
  cbn zeta.
  destruct (Z.le_gt_cases (fst (pageWindow c t)) (snd (pageWindow c t)))
    as [Hse | Hes].
  - destruct (sides_of_window c t Hse) as [-> ->].
    rewrite !has_cons, !has_app. unfold leftEdge, rightEdge.
    set (s := fst (pageWindow c t)). set (e := snd (pageWindow c t)).
    destruct (Z.ltb_spec 1 s), (Z.ltb_spec 2 s), (Z.ltb_spec e t),
      (Z.ltb_spec e (t - 1)); try lia; cbn; rewrite ?Z.eqb_refl;
      repeat split; reflexivity.
  - destruct (empty_window c t) as (Hs & He & Ht); [lia|].
    rewrite createPagination_shape, Hs, He.
    rewrite pageButtons_nil by lia.
    unfold leftEdge, rightEdge. rewrite !Z.ltb_irrefl.
    replace (t <? t - 1) with false by (symmetry; apply Z.ltb_ge; lia).
    replace (1 <? 1) with false by reflexivity.
    replace (2 <? 1) with false by reflexivity.
    repeat split; reflexivity.
Qed.

(** C5, counterexample.  On page 4 of 20 the window starts at page 2:
    the button for page 1 is shown, with no ellipsis next to it. *)
Lemma createPagination_edge_without_dots :
  ~ (has (EdgeBtn 1) (beforeWindow (createPagination 4 20)) = true
     /\ has Dots (beforeWindow (createPagination 4 20)) = true
     <-> 1 < fst (pageWindow 4 20)).
Proof.
  intros [_ H]. assert (Hs : 1 < fst (pageWindow 4 20)) by (vm_compute; reflexivity).
  destruct (H Hs) as [_ Hd]. vm_compute in Hd. discriminate Hd.
Qed.

End Pagination.

(** ** Query parameters *)

Section QueryParameters.
Import PhotoGallery.

Lemma getPhotos_params_filters page f :
  PhotoService.getPhotos_params page (Filters_obj f) =
    [("page", VNum page); ("limit", VNum CONFIG.ITEMS_PER_PAGE);
     ("search", VStr (search f)); ("sort", VStr (sort f));
     ("location", VStr (location f)); ("minRating", VNum (minRating f))].
Proof. reflexivity. Qed.

Lemma getPhotos_request_query page f :
  url_query (req_url (PhotoService.getPhotos_request page (Filters_obj f))) =
    [("page", pretty page); ("limit", "12");
     ("search", search f); ("sort", sort f);
     ("location", location f); ("minRating", pretty (minRating f))].
Proof. reflexivity. Qed.

(** C7.  The parameters of a photo fetch are determined by the page
    and the filters alone: two galleries that agree on both issue the
    same request, whatever else they hold.  The parameter set always
    has page, limit (12) and the four filter fields, and an empty
    search text is sent as an empty string. *)
Theorem getPhotos_params_pure page f :
  PhotoService.getPhotos_params page (Filters_obj f) =
    [("page", VNum page); ("limit", VNum 12);
     ("search", VStr (search f)); ("sort", VStr (sort f));
     ("location", VStr (location f)); ("minRating", VNum (minRating f))]
  /\ (search f = "" ->
      obj_get (PhotoService.getPhotos_params page (Filters_obj f)) "search"
        = Some (VStr "")
      /\ query_get
           (url_query
              (req_url (PhotoService.getPhotos_request page (Filters_obj f))))
           "search" = Some "")
  /\ (forall g1 g2,
        currentPage g1 = currentPage g2 -> filters g1 = filters g2 ->
        loadPhotos_request g1 = loadPhotos_request g2).
Proof.
  split; [apply getPhotos_params_filters|]. split.
  - intros Hs. rewrite getPhotos_params_filters, getPhotos_request_query.
    rewrite Hs. split; reflexivity.
  - intros g1 g2 Hp Hf. unfold loadPhotos_request. now rewrite Hp, Hf.
Qed.

End QueryParameters.

(** ** The gallery's operations *)

Section GalleryOperations.
Import PhotoGallery.

Lemma loadPhotos_request_page g :
  query_get (url_query (req_url (loadPhotos_request g))) "page"
    = Some (pretty (currentPage g)).
Proof. reflexivity. Qed.

Lemma loadPhotos_request_search g :
  query_get (url_query (req_url (loadPhotos_request g))) "search"
    = Some (search (filters g)).
Proof. reflexivity. Qed.

(** C1.  Within 1..totalPages, [goToPage n] sets the current page to
    [n], leaves the rest of the state alone and issues exactly one
    request, for page [n]; outside that range it changes nothing and
    issues nothing. *)
Theorem goToPage_spec n g :
  (1 <= n <= totalPages g ->
     let g' := fst (goToPage n g) in
     currentPage g' = n
     /\ totalPages g' = totalPages g
     /\ filters g' = filters g
     /\ photos g' = photos g
     /\ requests (snd (goToPage n g)) = [loadPhotos_request g']
     /\ query_get (url_query (req_url (loadPhotos_request g'))) "page"
          = Some (pretty n))
  /\ (n < 1 \/ totalPages g < n -> goToPage n g = (g, [])).
Proof.
  unfold goToPage. split.
  - intros [H1 Ht].
    rewrite (proj2 (Z.leb_le 1 n) H1), (proj2 (Z.leb_le n _) Ht).
    cbn. repeat split; reflexivity.
  - intros [Hlo | Hhi].
    + now rewrite (proj2 (Z.leb_gt 1 n) Hlo).
    + rewrite (proj2 (Z.leb_gt n _) Hhi). now rewrite andb_false_r.
Qed.

(** C6.  With text [x] in the search box, [searchPhotos] stores [x]
    as the search filter, sets the current page to 1 whatever it was,
    and issues one request, for page 1 of that search. *)
Theorem searchPhotos_spec dom g x :
  globalSearch dom = Some x ->
  let g' := fst (searchPhotos dom g) in
  search (filters g') = x
  /\ currentPage g' = 1
  /\ requests (snd (searchPhotos dom g)) = [loadPhotos_request g']
  /\ query_get (url_query (req_url (loadPhotos_request g'))) "page"
       = Some "1"
  /\ query_get (url_query (req_url (loadPhotos_request g'))) "search"
       = Some x.
Proof.
  intros Hx. unfold searchPhotos. rewrite Hx. cbn.
  repeat split; reflexivity.
Qed.

(** The continuation of [loadPhotos] never touches the page or the
    filters. *)
Lemma loadPhotos_settle_frame stats dom g o :
  let g' := fst (fst (loadPhotos_settle stats dom g o)) in
  currentPage g' = currentPage g /\ filters g' = filters g.
Proof.
  unfold loadPhotos_settle.
  destruct (PhotoService.getPhotos_settle o) as [log [[|r]|e]];
    cbn; try (split; reflexivity).
  destruct (resp_pagination r); [destruct stats|]; cbn; split; reflexivity.
Qed.

Lemma loadPhotos_unfold stats dom g o :
  loadPhotos stats dom g o =
    (fst (fst (loadPhotos_settle stats dom g o)),
     Fetch (loadPhotos_request g) :: snd (fst (loadPhotos_settle stats dom g o)),
     snd (loadPhotos_settle stats dom g o)).
Proof.
  unfold loadPhotos. now destruct (loadPhotos_settle stats dom g o) as [[g' log] r].
Qed.

Lemma getPhotos_settle_failed o :
  fetch_failed o = true ->
  PhotoService.getPhotos_settle o
    = ([ConsoleError "API GET Error (/photos):" (failure_of o)],
       Throw (failure_of o)).
Proof.
  destruct o as [e | ok status json]; cbn; [reflexivity|].
  intros Hok. apply negb_true_iff in Hok. now subst ok.
Qed.

Lemma loadPhotos_settle_failed stats dom g o :
  fetch_failed o = true ->
  loadPhotos_settle stats dom g o
    = (g,
       [ConsoleError "API GET Error (/photos):" (failure_of o);
        ConsoleError "Error loading photos:" (failure_of o);
        Notify "Failed to load photos" "error"],
       Throw (failure_of o)).
Proof.
  intros Hf. unfold loadPhotos_settle.
  now rewrite (getPhotos_settle_failed o Hf).
Qed.

(** The same when other calls came in between: a request that fails
    leaves the gallery as it is at the time it settles. *)
Lemma step_settle_failed dom v i o stats :
  fetch_failed o = true ->
  gallery (fst (step dom v (Settle i o stats))) = gallery v.
Proof.
  intros Hf. cbn. destruct (pending v !! i); [|reflexivity].
  now rewrite (loadPhotos_settle_failed stats dom _ o Hf).
Qed.

(** C2.  When the fetch fails (no response, or a response that is not
    a success), [loadPhotos] leaves the gallery exactly as it was, its
    promise is rejected with the error of the failure, the error
    notification is shown once, and no second request is made. *)
Theorem loadPhotos_failure stats dom g o :
  fetch_failed o = true ->
  exists log,
    loadPhotos stats dom g o = (g, log, Throw (failure_of o))
    /\ notifications log = [("Failed to load photos", "error")]
    /\ requests log = [loadPhotos_request g].
Proof.
  intros Hf. unfold loadPhotos.
  rewrite (loadPhotos_settle_failed stats dom g o Hf).
  eexists. repeat split; reflexivity.
Qed.

(** C10.  Whatever the request settles with, [loadPhotos] leaves the
    current page and every filter as they were.  On a successful
    response that is an object, the photo list becomes the response's
    photos (empty when the field is missing) and totalPages the
    reported page count (1 when it is missing). *)
Theorem loadPhotos_frame stats dom g status r :
  let o := HttpResponse true status (Ok (JsonObject r)) in
  let g' := fst (fst (loadPhotos stats dom g o)) in
  (forall o', currentPage (fst (fst (loadPhotos stats dom g o'))) = currentPage g
              /\ filters (fst (fst (loadPhotos stats dom g o'))) = filters g)
  /\ photos g' = Some (arr_or (resp_photos r) [])
  /\ totalPages g' = num_or (reported_pages r) 1
  /\ (resp_photos r = None -> photos g' = Some [])
  /\ (reported_pages r = None -> totalPages g' = 1).
Proof.
  cbn zeta. split.
  - intros o'. rewrite loadPhotos_unfold. cbn [fst snd].
    apply loadPhotos_settle_frame.
  - rewrite loadPhotos_unfold. cbn [fst snd].
    unfold loadPhotos_settle, reported_pages. cbn.
    destruct (resp_pagination r) as [p|]; [destruct stats|]; cbn.
    all: repeat split; try reflexivity.
    all: try (intros ->; reflexivity).
Qed.

End GalleryOperations.

(** ** The page stays within range *)

Section PageRange.
Import PhotoGallery.

Lemma page_in_range_initial : page_in_range initial.
Proof. unfold page_in_range. cbn. lia. Qed.

Lemma page_in_range_goToPage n g :
  page_in_range g -> page_in_range (fst (goToPage n g)).
Proof.
  unfold goToPage, page_in_range. intros Hg.
  destruct (Z.leb_spec 1 n), (Z.leb_spec n (totalPages g)); cbn; lia.
Qed.

Lemma page_in_range_searchPhotos dom g :
  page_in_range g -> page_in_range (fst (searchPhotos dom g)).
Proof.
  unfold searchPhotos, page_in_range. intros Hg.
  destruct (globalSearch dom); cbn; lia.
Qed.

Lemma page_in_range_settle stats dom g i o :
  page_in_range g -> settles_in_range g (Settle i o stats) ->
  page_in_range (fst (fst (loadPhotos_settle stats dom g o))).
Proof.
  unfold page_in_range, settles_in_range, loadPhotos_settle. intros Hg Hs.
  destruct o as [e | [|] status [[|r]|e]]; cbn; try exact Hg.
  unfold reported_pages in Hs.
  destruct (resp_pagination r) as [p|]; [destruct stats|]; cbn;
    try lia; cbn in Hs; lia.
Qed.

Lemma goToPage_out_of_range n g :
  ~ 1 <= n <= totalPages g -> goToPage n g = (g, []).
Proof.
  intros Hn. unfold goToPage.
  destruct (Z.leb_spec 1 n), (Z.leb_spec n (totalPages g));
    try reflexivity; lia.
Qed.

Lemma page_in_range_step dom v ev :
  page_in_range (gallery v) -> settles_in_range (gallery v) ev ->
  page_in_range (gallery (fst (step dom v ev))).
Proof.
  intros Hv Hs. destruct ev as [|n| |i o stats]; cbn.
  - pose proof (page_in_range_searchPhotos dom _ Hv) as H.
    now destruct (searchPhotos dom (gallery v)).
  - pose proof (page_in_range_goToPage n _ Hv) as H.
    now destruct (goToPage n (gallery v)).
  - exact Hv.
  - destruct (pending v !! i); [|exact Hv].
    pose proof (page_in_range_settle stats dom _ i o Hv Hs) as H.
    now destruct (loadPhotos_settle stats dom (gallery v) o) as [[g' log] res].
Qed.

(** Along a run whose requests all settle within range, the page is
    within range in every state reached. *)
Lemma page_in_range_run evs :
  forall v, page_in_range (gallery v) -> well_served v evs ->
            page_in_range (gallery (run v evs)).
Proof.
  induction evs as [|[dom ev] evs IH]; intros v Hv Hw; [exact Hv|].
  destruct Hw as [Hs Hw]. cbn [run]. apply IH; [|exact Hw].
  now apply page_in_range_step.
Qed.

(** C4, as the code has it.  The page is within 1..totalPages at the
    start, and stays so through a search, a page change, a plain load,
    a request that fails, and a request that succeeds with a page
    count of at least the current page.  A page request out of range
    changes nothing: it is not moved into range. *)
Theorem page_in_range_preserved :
  page_in_range (gallery start)
  /\ (forall dom v ev,
        page_in_range (gallery v) -> settles_in_range (gallery v) ev ->
        page_in_range (gallery (fst (step dom v ev))))
  /\ (forall dom v n,
        ~ 1 <= n <= totalPages (gallery v) ->
        gallery (fst (step dom v (GoToPage n))) = gallery v
        /\ snd (step dom v (GoToPage n)) = []).
Proof.
  split; [apply page_in_range_initial|]. split.
  - apply page_in_range_step.
  - intros dom v n Hn. cbn.
    now rewrite (goToPage_out_of_range n _ Hn).
Qed.

(** C4, counterexample.  After a first load that reports 10 pages and
    a jump to page 5, the page is within range; the response to that
    jump reports 2 pages, and the current page 5 is then beyond
    totalPages 2. *)
Lemma refetch_leaves_page_beyond_total :
  let v := run start visit_page_5 in
  let v' := fst (step no_dom v (Settle 0 (body_with_pages 2) Completes)) in
  page_in_range (gallery v)
  /\ currentPage (gallery v') = 5
  /\ totalPages (gallery v') = 2
  /\ ~ page_in_range (gallery v').
Proof.
  cbn zeta. unfold page_in_range. vm_compute.
  repeat split; try reflexivity; try discriminate.
  intros [_ H]. apply H. reflexivity.
Qed.

End PageRange.

(** ** Comments and ratings *)

Section Submissions.
Import PhotoService.
Variable JSON_parse : string -> Result (option User).

Lemma getCurrentUser_none st (localStorage : gmap string string) :
  currentUser st = None -> localStorage !! "photoapp_user" = None ->
  AuthService.getCurrentUser JSON_parse st localStorage = (st, Ok None).
Proof.
  intros Hu Hs. unfold AuthService.getCurrentUser. now rewrite Hu, Hs.
Qed.

(** C8.  With no user in the application state and none in storage,
    [addComment] and [ratePhoto] are rejected with the logged-in
    error and issue no request; whenever either is rejected, nothing
    was sent.  With a current user [u], each issues one POST whose
    body has [user_id] set to the id of [u]. *)
Theorem submissions_need_user photoId comment rating st
    (localStorage : gmap string string) :
  (currentUser st = None -> localStorage !! "photoapp_user" = None ->
     addComment JSON_parse photoId comment st localStorage
       = (st, [], Throw (MkError "Error" "User must be logged in to comment"))
     /\ ratePhoto JSON_parse photoId rating st localStorage
       = (st, [], Throw (MkError "Error" "User must be logged in to rate")))
  /\ (forall e,
        (snd (addComment JSON_parse photoId comment st localStorage) = Throw e ->
         requests (snd (fst (addComment JSON_parse photoId comment st localStorage))) = [])
        /\ (snd (ratePhoto JSON_parse photoId rating st localStorage) = Throw e ->
         requests (snd (fst (ratePhoto JSON_parse photoId rating st localStorage))) = []))
  /\ (forall st' u,
        AuthService.getCurrentUser JSON_parse st localStorage = (st', Ok (Some u)) ->
        exists rc rr,
          addComment JSON_parse photoId comment st localStorage
            = (st', [Fetch rc], Ok tt)
          /\ req_method rc = POST
          /\ req_body rc = Some [("user_id", VNum (user_id u));
                                 ("comment", VStr comment)]
          /\ ratePhoto JSON_parse photoId rating st localStorage
            = (st', [Fetch rr], Ok tt)
          /\ req_method rr = POST
          /\ req_body rr = Some [("user_id", VNum (user_id u));
                                 ("rating", VNum rating)]).
Proof.
  unfold addComment, ratePhoto. repeat split.
  - now rewrite getCurrentUser_none.
  - now rewrite getCurrentUser_none.
  - destruct (AuthService.getCurrentUser JSON_parse st localStorage)
      as [st' [[u|]|e']]; cbn; [discriminate | reflexivity | reflexivity].
  - destruct (AuthService.getCurrentUser JSON_parse st localStorage)
      as [st' [[u|]|e']]; cbn; [discriminate | reflexivity | reflexivity].
  - intros st' u Hu. rewrite Hu. do 2 eexists. repeat split.
Qed.

End Submissions.

(** ** The statement of line 511 *)

Section StatsStatement.
Import PhotoGallery.

(** The gallery the continuation of [loadPhotos] leaves does not
    depend on what the statement of line 511 does: the assignments of
    lines 503-504 come first and are not undone. *)
Lemma loadPhotos_settle_gallery_any_stats dom g o stats1 stats2 :
  fst (fst (loadPhotos_settle stats1 dom g o))
    = fst (fst (loadPhotos_settle stats2 dom g o)).
Proof.
  unfold loadPhotos_settle.
  destruct (PhotoService.getPhotos_settle o) as [log [[|r]|e]];
    try reflexivity.
  destruct (resp_pagination r); [destruct stats1, stats2|]; reflexivity.
Qed.

(** If that statement throws, the [catch] block runs on a gallery that
    already holds the new photos and page count. *)
Lemma loadPhotos_settle_stats_throws dom g status r p e :
  resp_pagination r = Some p ->
  exists log,
    loadPhotos_settle (Throws e) dom g
      (HttpResponse true status (Ok (JsonObject r)))
    = (set_totalPages (set_photos g (arr_or (resp_photos r) []))
         (num_or (pages p) 1),
       log, Throw e)
    /\ notifications log = [("Failed to load photos", "error")].
Proof.
  intros Hp. unfold loadPhotos_settle. cbn. rewrite Hp.
  eexists. split; [reflexivity|].
  unfold notifications, renderPhotos, renderPagination.
  rewrite !omap_app.
  destruct (galleryGrid dom), (pagination dom); cbn;
    try destruct (_ <=? 1); reflexivity.
Qed.

End StatsStatement.

(** ** Instances at concrete inputs *)

(** The two windows the specification gives as examples: page 10 of 20
    and page 1 of 3. *)
Lemma createPagination_window_witness :
  (1 <= 10 <= 20
   /\ UIComponents.windowPages (UIComponents.createPagination 10 20)
      = [8; 9; 10; 11; 12])
  /\ (1 <= 1 <= 3
      /\ UIComponents.windowPages (UIComponents.createPagination 1 3)
         = [1; 2; 3]).
Proof.
  assert (H1 : 1 <= 10 <= 20) by lia.
  assert (H2 : 1 <= 1 <= 3) by lia.
  split; (split; [assumption|]).
  - exact (proj1 (createPagination_window 10 20 H1)).
  - exact (proj1 (createPagination_window 1 3 H2)).
Defined.

(** With three pages: page 2 is taken, pages 7 and 0 are not. *)
Lemma goToPage_spec_witness :
  PhotoGallery.currentPage (fst (PhotoGallery.goToPage 2 three_pages)) = 2
  /\ PhotoGallery.goToPage 7 three_pages = (three_pages, [])
  /\ PhotoGallery.goToPage 0 three_pages = (three_pages, []).
Proof.
  split; [|split].
  - apply (proj1 (goToPage_spec 2 three_pages)). cbn. lia.
  - apply (proj2 (goToPage_spec 7 three_pages)). right. cbn. lia.
  - apply (proj2 (goToPage_spec 0 three_pages)). left. lia.
Defined.

(** A search for cats from page 3 goes back to page 1. *)
Lemma searchPhotos_spec_witness :
  globalSearch (search_box "cats") = Some "cats"
  /\ PhotoGallery.currentPage
       (fst (PhotoGallery.searchPhotos (search_box "cats")
               (PhotoGallery.set_currentPage three_pages 3))) = 1.
Proof.
  split; [reflexivity|].
  apply (searchPhotos_spec (search_box "cats")
           (PhotoGallery.set_currentPage three_pages 3) "cats").
  reflexivity.
Defined.

(** A fetch that is rejected outright. *)
Lemma loadPhotos_failure_witness :
  fetch_failed fetch_rejected = true
  /\ exists log,
       PhotoGallery.loadPhotos Completes no_dom three_pages fetch_rejected
         = (three_pages, log, Throw (MkError "TypeError" "Failed to fetch"))
       /\ notifications log = [("Failed to load photos", "error")]
       /\ requests log = [PhotoGallery.loadPhotos_request three_pages].
Proof.
  split; [reflexivity|].
  apply (loadPhotos_failure Completes no_dom three_pages fetch_rejected).
  reflexivity.
Defined.

(** A response with neither photos nor pagination. *)
Lemma loadPhotos_frame_witness :
  PhotoGallery.photos
    (fst (fst (PhotoGallery.loadPhotos Completes no_dom three_pages
                 (HttpResponse true 200 (Ok (JsonObject empty_body))))))
    = Some []
  /\ PhotoGallery.totalPages
       (fst (fst (PhotoGallery.loadPhotos Completes no_dom three_pages
                    (HttpResponse true 200 (Ok (JsonObject empty_body))))))
     = 1.
Proof.
  pose proof (loadPhotos_frame Completes no_dom three_pages 200 empty_body)
    as (_ & _ & _ & Hphotos & Hpages).
  split; [apply Hphotos | apply Hpages]; reflexivity.
Defined.

(** Page 4 with an empty search text. *)
Lemma getPhotos_params_pure_witness :
  search blank_search_filters = ""
  /\ obj_get (PhotoService.getPhotos_params 4 (Filters_obj blank_search_filters))
             "search" = Some (VStr "").
Proof.
  split; [reflexivity|].
  apply (proj1 (proj2 (getPhotos_params_pure 4 blank_search_filters))).
  reflexivity.
Defined.

(** On page 5, a response that still reports 10 pages. *)
Lemma page_in_range_preserved_witness :
  PhotoGallery.page_in_range
    (PhotoGallery.gallery
       (fst (PhotoGallery.step no_dom
               (PhotoGallery.run PhotoGallery.start visit_page_5)
               (PhotoGallery.Settle 0 (body_with_pages 10) Completes)))).
Proof.
  apply (proj1 (proj2 page_in_range_preserved)).
  - unfold PhotoGallery.page_in_range. vm_compute. split; discriminate.
  - vm_compute. discriminate.
Defined.

(** A comment on photo 42, without a user and as alice. *)
Lemma submissions_need_user_witness :
  PhotoService.addComment parse_nothing 42 "nice" {| currentUser := None |} ∅
    = ({| currentUser := None |}, [],
       Throw (MkError "Error" "User must be logged in to comment"))
  /\ exists rc,
       PhotoService.addComment parse_nothing 42 "nice"
         {| currentUser := Some alice |} ∅
         = ({| currentUser := Some alice |}, [Fetch rc], Ok tt)
       /\ req_body rc = Some [("user_id", VNum 7); ("comment", VStr "nice")].
Proof.
  split.
  - apply (proj1 (submissions_need_user parse_nothing 42 "nice" 5
                    {| currentUser := None |} ∅)); reflexivity.
  - destruct (proj2 (proj2 (submissions_need_user parse_nothing 42 "nice" 5
                              {| currentUser := Some alice |} ∅))
                _ alice eq_refl)
      as (rc & rr & Hc & _ & Hb & _).
    exists rc. split; assumption.
Defined.

(** * Further results *)

(** ** Regular expressions and the e-mail check *)

Section EmailCheck.
Import Utils.

Lemma matches_nil_nullable r w : matches r w -> w = [] -> nullable r = true.
Proof.
  induction 1 as [ | p c Hp | r s w _ IH | r s w _ IH
                 | r s w1 w2 _ IH1 _ IH2 | r | r w1 w2 _ IH1 _ IH2 ];
    intros Hw; cbn; try reflexivity.
  - discriminate Hw.
  - now rewrite IH.
  - rewrite IH by assumption. apply orb_true_r.
  - apply app_eq_nil in Hw as [-> ->]. now rewrite IH1, IH2.
Qed.

Lemma nullable_matches_nil r : nullable r = true -> matches r [].
Proof.
  induction r as [ | | p | r IHr s IHs | r IHr s IHs | r IHr ]; cbn; intros H;
    try discriminate H.
  - constructor.
  - apply orb_true_iff in H as [H | H]; [apply m_alt_l | apply m_alt_r]; auto.
  - apply andb_true_iff in H as [Hr Hs].
    change (@nil N) with (@nil N ++ []). constructor; auto.
  - constructor.
Qed.

Lemma deriv_sound c r : forall w, matches (deriv c r) w -> matches r (c :: w).
Proof.
  induction r as [ | | p | r IHr s IHs | r IHr s IHs | r IHr ]; cbn; intros w H.
  - inversion H.
  - inversion H.
  - destruct (p c) eqn:Hp; inversion H; subst. now constructor.
  - inversion H; subst; [apply m_alt_l | apply m_alt_r]; auto.
  - destruct (nullable r) eqn:Hn.
    + inversion H as [ | | ? ? ? H1 | ? ? ? H2 | | | ]; subst.
      * inversion H1; subst.
        change (c :: ?a ++ ?b) with ((c :: a) ++ b). constructor; auto.
      * change (c :: w) with ([] ++ c :: w). constructor; auto.
        now apply nullable_matches_nil.
    + inversion H; subst.
      change (c :: ?a ++ ?b) with ((c :: a) ++ b). constructor; auto.
  - inversion H; subst.
    change (c :: ?a ++ ?b) with ((c :: a) ++ b). constructor; auto.
Qed.

Lemma deriv_complete c r cw :
  matches r cw -> forall w, cw = c :: w -> matches (deriv c r) w.
Proof.
  induction 1 as [ | p c' Hp | r s w' _ IH | r s w' _ IH
                 | r s w1 w2 H1 IH1 H2 IH2 | r | r w1 w2 H1 IH1 H2 IH2 ];
    intros w Hw; cbn.
  - discriminate Hw.
  - injection Hw as -> <-. rewrite Hp. constructor.
  - apply m_alt_l. auto.
  - apply m_alt_r. auto.
  - destruct w1 as [|c1 w1].
    + cbn in Hw. rewrite (matches_nil_nullable r [] H1 eq_refl).
      apply m_alt_r. auto.
    + injection Hw as -> <-.
      assert (Hs : matches (Seq (deriv c r) s) (w1 ++ w2))
        by (constructor; auto).
      destruct (nullable r); [now apply m_alt_l | exact Hs].
  - discriminate Hw.
  - destruct w1 as [|c1 w1].
    + cbn in Hw. exact (IH2 w Hw).
    + injection Hw as -> <-. constructor; auto.
Qed.

(** [test] decides the texts a pattern matches. *)
Lemma test_matches w : forall r, test r w = true <-> matches r w.
Proof.
  induction w as [|c w IH]; intros r; cbn.
  - split; [apply nullable_matches_nil | intros H; now apply matches_nil_nullable with (w := [])].
  - rewrite IH. split; [apply deriv_sound | intros H; now apply deriv_complete with (cw := c :: w)].
Qed.

Lemma matches_star_cls p w :
  matches (Star (Cls p)) w <-> Forall (fun c => p c = true) w.
Proof.
  split.
  - intros H. remember (Star (Cls p)) as r eqn:Hr.
    induction H as [ | | | | | r' | r' w1 w2 H1 _ H2 IH2 ]; try discriminate Hr.
    + constructor.
    + injection Hr as ->. inversion H1; subst. constructor; auto.
  - induction 1 as [|c w Hc _ IH].
    + constructor.
    + change (c :: w) with ([c] ++ w). constructor; [now constructor | exact IH].
Qed.

Lemma matches_plus_cls p w :
  matches (Plus (Cls p)) w <-> w <> [] /\ Forall (fun c => p c = true) w.
Proof.
  unfold Plus. split.
  - intros H. inversion H as [ | | | | ? ? w1 w2 H1 H2 | | ]; subst.
    inversion H1; subst. apply matches_star_cls in H2.
    split; [discriminate | constructor; assumption].
  - intros [Hne Hall]. destruct Hall as [|c w Hc Hw]; [contradiction|].
    change (c :: w) with ([c] ++ w).
    constructor; [now constructor | now apply matches_star_cls].
Qed.

Lemma matches_cls_eqb a w : matches (Cls (N.eqb a)) w <-> w = [a].
Proof.
  split.
  - intros H. inversion H as [ | ? c Hc | | | | | ]; subst.
    apply N.eqb_eq in Hc. now subst.
  - intros ->. constructor. apply N.eqb_refl.
Qed.

End EmailCheck.

Section EmailShape.
Import Utils.
Variable isSpace : N -> bool.

Lemma notSpaceAt_spec c :
  notSpaceAt isSpace c = true <-> isSpace c = false /\ c <> at_sign.
Proof.
  unfold notSpaceAt. rewrite andb_true_iff, !negb_true_iff, N.eqb_neq.
  reflexivity.
Qed.

Lemma matches_part w :
  matches (Plus (Cls (notSpaceAt isSpace))) w <-> email_part isSpace w.
Proof.
  rewrite matches_plus_cls. unfold email_part.
  split; intros [Hne Hall]; (split; [exact Hne|]);
    eapply Forall_impl; try exact Hall; intros c; apply notSpaceAt_spec.
Qed.

Lemma matches_seq_inv r s w :
  matches (Seq r s) w <->
  exists w1 w2, w = w1 ++ w2 /\ matches r w1 /\ matches s w2.
Proof.
  split.
  - intros H. inversion H; subst. eauto.
  - intros (w1 & w2 & -> & H1 & H2). now constructor.
Qed.

Lemma matches_emailPattern w :
  matches (emailPattern isSpace) w <->
  exists a b c,
    w = a ++ at_sign :: b ++ full_stop :: c
    /\ email_part isSpace a /\ email_part isSpace b /\ email_part isSpace c.
Proof.
  unfold emailPattern. split.
  - intros H.
    apply matches_seq_inv in H as (a & w1 & -> & Ha & H).
    apply matches_seq_inv in H as (x & w2 & -> & Hx & H).
    apply matches_seq_inv in H as (b & w3 & -> & Hb & H).
    apply matches_seq_inv in H as (y & c & -> & Hy & Hc).
    apply matches_cls_eqb in Hx, Hy. subst x y.
    exists a, b, c. rewrite <- !matches_part. auto.
  - intros (a & b & c & -> & Ha & Hb & Hc).
    rewrite <- matches_part in Ha, Hb, Hc.
    constructor; [exact Ha|].
    change (at_sign :: b ++ full_stop :: c)
      with ([at_sign] ++ b ++ [full_stop] ++ c).
    constructor; [now apply matches_cls_eqb|].
    constructor; [exact Hb|].
    constructor; [now apply matches_cls_eqb | exact Hc].
Qed.

(** X1.  [validateEmail] accepts exactly the texts of the form
    [a @ b . c] where [a], [b] and [c] are non-empty and hold neither
    white space nor an at sign. *)
Theorem validateEmail_shape email :
  validateEmail isSpace email = true <->
  exists a b c,
    email = a ++ at_sign :: b ++ full_stop :: c
    /\ email_part isSpace a /\ email_part isSpace b /\ email_part isSpace c.
Proof.
  unfold validateEmail. rewrite test_matches. apply matches_emailPattern.
Qed.

Lemma occurrences_app c w1 w2 :
  occurrences c (w1 ++ w2) = (occurrences c w1 + occurrences c w2)%nat.
Proof. unfold occurrences. now rewrite List.filter_app, length_app. Qed.

Lemma occurrences_part w :
  email_part isSpace w -> occurrences at_sign w = 0%nat.
Proof.
  intros [_ Hall]. unfold occurrences.
  induction Hall as [|c w [_ Hc] _ IH]; [reflexivity|].
  cbn [List.filter]. destruct (N.eqb_spec at_sign c) as [E|_]; [now symmetry in E|exact IH].
Qed.

Lemma email_part_no_space w :
  email_part isSpace w -> Forall (fun c => isSpace c = false) w.
Proof. intros [_ Hall]. eapply Forall_impl; [exact Hall|]. now intros c [H _]. Qed.

Lemma email_part_length w : email_part isSpace w -> (1 <= length w)%nat.
Proof. intros [Hne _]. destruct w; [contradiction | cbn; lia]. Qed.

Lemma validateEmail_parts email :
  validateEmail isSpace email = true ->
  exists a b c,
    email = a ++ at_sign :: b ++ full_stop :: c
    /\ email_part isSpace a /\ email_part isSpace b /\ email_part isSpace c.
Proof.
  unfold validateEmail. rewrite test_matches. apply matches_emailPattern.
Qed.

(** X2.  A text that [validateEmail] accepts holds exactly one at sign,
    which is not its first code unit, and is at least five code units
    long; it holds no white space (the at sign and the full stop not
    being white space). *)
Theorem validateEmail_accepts email :
  validateEmail isSpace email = true ->
  occurrences at_sign email = 1%nat
  /\ head email <> Some at_sign
  /\ (5 <= length email)%nat
  /\ (isSpace at_sign = false -> isSpace full_stop = false ->
      Forall (fun c => isSpace c = false) email).
Proof.
  intros H.
  destruct (validateEmail_parts email H) as (a & b & c & -> & Ha & Hb & Hc).
  split; [|split; [|split]].
  - change (at_sign :: b ++ full_stop :: c)
      with ([at_sign] ++ b ++ [full_stop] ++ c).
    rewrite !occurrences_app.
    rewrite (occurrences_part a), (occurrences_part b), (occurrences_part c)
      by assumption.
    reflexivity.
  - destruct Ha as [Hne Hall].
    destruct Hall as [|x a [_ Hx] _]; [contradiction|].
    cbn. intros E. injection E as E. contradiction.
  - pose proof (email_part_length a Ha). pose proof (email_part_length b Hb).
    pose proof (email_part_length c Hc).
    rewrite length_app. cbn. rewrite length_app. cbn. lia.
  - intros Hat Hdot.
    apply Forall_app. split; [now apply email_part_no_space|].
    constructor; [exact Hat|].
    apply Forall_app. split; [now apply email_part_no_space|].
    constructor; [exact Hdot | now apply email_part_no_space].
Qed.

End EmailShape.

(** ** The register form *)

Section RegisterForm.
Import Utils Handlers.
Variable isSpace : N -> bool.

(** X3.  The register handler passes the form on to
    [AuthService.register], unchanged and without a notification,
    exactly when the e-mail is accepted and the password has at least
    six code units.  A rejected e-mail is reported first, whatever the
    password; every refusal shows one error notification. *)
Theorem registerForm_submit_gate userData :
  (snd (registerForm_submit isSpace userData) = Some userData <->
     validateEmail isSpace (reg_email userData) = true
     /\ (6 <= length (reg_password userData))%nat)
  /\ (forall sent, snd (registerForm_submit isSpace userData) = Some sent ->
        sent = userData /\ fst (registerForm_submit isSpace userData) = [])
  /\ (validateEmail isSpace (reg_email userData) = false ->
        registerForm_submit isSpace userData
          = ([Notify "Please enter a valid email" "error"], None))
  /\ (snd (registerForm_submit isSpace userData) = None ->
        exists message,
          fst (registerForm_submit isSpace userData) = [Notify message "error"]).
Proof.
  unfold registerForm_submit, validatePassword.
  destruct (validateEmail isSpace (reg_email userData));
    destruct (Nat.leb_spec 6 (length (reg_password userData))); cbn.
  - (* both checks pass *)
    split; [tauto|]. split; [|split; discriminate].
    intros sent E. injection E as <-. now split.
  - (* the password is too short *)
    split; [split; [discriminate | lia]|].
    split; [discriminate|]. split; [discriminate|]. eauto.
  - (* the e-mail is rejected *)
    split; [split; [discriminate | intros [E _]; discriminate E]|].
    split; [discriminate|]. split; [reflexivity|]. eauto.
  - split; [split; [discriminate | intros [E _]; discriminate E]|].
    split; [discriminate|]. split; [reflexivity|]. eauto.
Qed.

End RegisterForm.

(** ** Notifications *)

Section Notifications.
Import Utils.

Lemma remove_note_length id page :
  (length (notes (remove_note id page)) <= length (notes page))%nat.
Proof. unfold remove_note. cbn. apply List.filter_length_le. Qed.

Lemma showNotification_alone message kind page :
  (length (notes page) <= 1)%nat ->
  notes (showNotification message kind page)
    = [{| note_id := created page; note_message := message;
          note_kind := kind |}].
Proof.
  unfold showNotification. destruct (notes page) as [|n [|n' ns]]; cbn;
    intros H; try reflexivity; lia.
Qed.

Lemma note_step_at_most_one page ev :
  (length (notes page) <= 1)%nat ->
  (length (notes (note_step page ev)) <= 1)%nat.
Proof.
  intros H. destruct ev as [message kind | id | id]; cbn [note_step].
  - now rewrite showNotification_alone.
  - pose proof (remove_note_length id page). lia.
  - pose proof (remove_note_length id page). lia.
Qed.

Lemma note_run_at_most_one evs :
  forall page, (length (notes page) <= 1)%nat ->
               (length (notes (note_run page evs)) <= 1)%nat.
Proof.
  unfold note_run. induction evs as [|ev evs IH]; intros page H; [exact H|].
  cbn [fold_left]. apply IH. now apply note_step_at_most_one.
Qed.



Lemma remove_note_other id page n :
  notes page = [n] -> note_id n <> id -> remove_note id page = page.
Proof.
  destruct page as [ns k]. cbn. intros -> Hid. unfold remove_note. cbn.
  destruct (Nat.eqb_spec (note_id n) id); [contradiction | reflexivity].
Qed.

Lemma remove_note_self id page n :
  notes page = [n] -> note_id n = id -> notes (remove_note id page) = [].
Proof.
  intros Hn <-. unfold remove_note. cbn. rewrite Hn. cbn.
  now rewrite Nat.eqb_refl.
Qed.

(** X5.  The timer of an earlier notification does not take down a
    later one: after [showNotification], a time-out or a close of any
    notification created before leaves the new one in the page, while
    its own time-out removes it. *)
Theorem stale_timer_spares_new_notification evs message kind id :
  (id < created (note_run blank_page evs))%nat ->
  let page := showNotification message kind (note_run blank_page evs) in
  note_step page (TimedOut id) = page
  /\ note_step page (Closed id) = page
  /\ notes (note_step page (TimedOut (created (note_run blank_page evs)))) = [].
Proof.
  intros Hid page.
  assert (Hn : notes page
               = [{| note_id := created (note_run blank_page evs);
                     note_message := message; note_kind := kind |}]).
  { apply showNotification_alone, note_run_at_most_one. cbn. lia. }
  cbn [note_step]. split; [|split].
  - apply (remove_note_other _ _ _ Hn). cbn. lia.
  - apply (remove_note_other _ _ _ Hn). cbn. lia.
  - now apply (remove_note_self _ _ _ Hn).
Qed.

End Notifications.

(** ** The session: logging in, logging out, the current user *)

Section SessionFacts.
Import AuthService.
Variable JSON_parse : string -> Result (option User).
Variable JSON_stringify : User -> string.

Lemma getCurrentUser_cached st (localStorage : gmap string string) u :
  currentUser st = Some u ->
  getCurrentUser JSON_parse st localStorage = (st, Ok (Some u)).
Proof. intros H. unfold getCurrentUser. now rewrite H. Qed.

Lemma isAuthenticated_insert_token (localStorage : gmap string string) v :
  isAuthenticated (<["photoapp_token" := v]> localStorage) = true.
Proof. unfold isAuthenticated. now rewrite lookup_insert_eq. Qed.

(** X6.  [login] never rejects, and its answer tells the state of the
    session: on success the user is the current user, is stored under
    [photoapp_user], the token is set and no other stored item is
    touched; on any failure the application state and the storage are
    exactly as before. *)
Theorem login_settle_session st (localStorage : gmap string string) o :
  let '(st', localStorage', log, result) :=
    login_settle JSON_stringify st localStorage o in
  match result with
  | LoginSucceeded u _ =>
      currentUser st' = Some u
      /\ localStorage' !! "photoapp_user" = Some (JSON_stringify u)
      /\ isAuthenticated localStorage' = true
      /\ (forall k, k <> "photoapp_user" -> k <> "photoapp_token" ->
                    localStorage' !! k = localStorage !! k)
      /\ log = []
  | LoginFailed _ => st' = st /\ localStorage' = localStorage
  end.
Proof.
  unfold login_settle, login_catch.
  destruct o as [e | ok status [[|data]|e]]; try (split; reflexivity).
  destruct (login_success data), (login_user data) as [u|];
    try (split; reflexivity).
  split; [reflexivity|]. split.
  - rewrite lookup_insert_ne by discriminate. apply lookup_insert_eq.
  - split; [apply isAuthenticated_insert_token|]. split; [|reflexivity].
    intros k Hu Ht. now rewrite !lookup_insert_ne by congruence.
Qed.

Lemma logout_lookup st (localStorage : gmap string string) :
  let localStorage' := snd (fst (logout st localStorage)) in
  localStorage' !! "photoapp_user" = None
  /\ localStorage' !! "photoapp_token" = None.
Proof.
  cbn. split.
  - rewrite lookup_delete_ne by discriminate. apply lookup_delete_eq.
  - apply lookup_delete_eq.
Qed.

(** X7.  After [logout], from any state, nobody is authenticated and
    no user can be resolved; a comment is then refused without a
    request.  The browser is sent to [index.html] and every other
    stored item is kept. *)
Theorem logout_clears_session st (localStorage : gmap string string)
    photoId comment :
  let '(st', localStorage', href) := logout st localStorage in
  isAuthenticated localStorage' = false
  /\ getCurrentUser JSON_parse st' localStorage' = (st', Ok None)
  /\ PhotoService.addComment JSON_parse photoId comment st' localStorage'
     = (st', [], Throw (MkError "Error" "User must be logged in to comment"))
  /\ href = "index.html"
  /\ (forall k, k <> "photoapp_user" -> k <> "photoapp_token" ->
                localStorage' !! k = localStorage !! k).
Proof.
  pose proof (logout_lookup st localStorage) as [Hu Ht]. cbn in Hu, Ht.
  cbn. split; [|split; [|split; [|split]]].
  - unfold isAuthenticated. now rewrite Ht.
  - unfold getCurrentUser. cbn. now rewrite Hu.
  - unfold PhotoService.addComment, getCurrentUser. cbn. now rewrite Hu.
  - reflexivity.
  - intros k Hk1 Hk2. now rewrite !lookup_delete_ne by congruence.
Qed.

Lemma login_settle_succeeded st (localStorage : gmap string string) o
    st' localStorage' log u message :
  login_settle JSON_stringify st localStorage o
    = (st', localStorage', log, LoginSucceeded u message) ->
  st' = {| currentUser := Some u |}
  /\ localStorage'
     = <["photoapp_token" := "authenticated"]>
         (<["photoapp_user" := JSON_stringify u]> localStorage)
  /\ log = [].
Proof.
  unfold login_settle, login_catch.
  destruct o as [e | ok status [[|data]|e]]; try discriminate.
  destruct (login_success data), (login_user data) as [u0|]; try discriminate.
  intros E. injection E as <- <- <- <- _. repeat split.
Qed.

(** X8.  A successful login outlives a page load: when
    [JSON.parse] reads back what [JSON.stringify] wrote for the user
    (a non-empty text), the user stored by [login] is the current user
    again after the application state has been reset. *)
Theorem login_survives_reload st (localStorage : gmap string string) o
    st' localStorage' log u message :
  JSON_parse (JSON_stringify u) = Ok (Some u) ->
  JSON_stringify u <> "" ->
  login_settle JSON_stringify st localStorage o
    = (st', localStorage', log, LoginSucceeded u message) ->
  getCurrentUser JSON_parse st' localStorage' = (st', Ok (Some u))
  /\ getCurrentUser JSON_parse (fst (reload localStorage'))
                    (snd (reload localStorage'))
     = ({| currentUser := Some u |}, Ok (Some u)).
Proof.
  intros Hround Hne Hlogin.
  destruct (login_settle_succeeded _ _ _ _ _ _ _ _ Hlogin) as (-> & -> & _).
  split; [now apply getCurrentUser_cached|].
  unfold reload, getCurrentUser. cbn.
  rewrite lookup_insert_ne by discriminate. rewrite lookup_insert_eq.
  destruct (String.eqb_spec (JSON_stringify u) ""); [contradiction|].
  now rewrite Hround.
Qed.

(** X9.  Once [getCurrentUser] has found a user, the application
    state answers every later call with that user, whatever the storage
    holds by then, an emptied storage included. *)
Theorem getCurrentUser_sticks st (localStorage : gmap string string) st' u :
  getCurrentUser JSON_parse st localStorage = (st', Ok (Some u)) ->
  forall later : gmap string string,
    getCurrentUser JSON_parse st' later = (st', Ok (Some u)).
Proof.
  intros H later. apply getCurrentUser_cached.
  revert H. unfold getCurrentUser.
  destruct (currentUser st) as [u0|] eqn:Hst.
  - intros E. injection E as <- <-. exact Hst.
  - destruct (localStorage !! "photoapp_user") as [text|]; [|discriminate].
    destruct (String.eqb text ""); [discriminate|].
    destruct (JSON_parse text) as [v|e]; [|discriminate].
    intros E. injection E as <- ->. reflexivity.
Qed.

(** X10.  Nobody is creator and consumer at once: when both role tests
    answer, at most one of them says yes, and without a current user
    both say no. *)
Theorem roles_exclude_each_other st (localStorage : gmap string string) :
  (forall creator consumer,
     snd (isCreator JSON_parse st localStorage) = Ok creator ->
     snd (isConsumer JSON_parse st localStorage) = Ok consumer ->
     creator && consumer = false)
  /\ (snd (getCurrentUser JSON_parse st localStorage) = Ok None ->
      snd (isCreator JSON_parse st localStorage) = Ok false
      /\ snd (isConsumer JSON_parse st localStorage) = Ok false).
Proof.
  unfold isCreator, isConsumer.
  destruct (getCurrentUser JSON_parse st localStorage) as [st' [[u|]|e]]; cbn.
  - split; [|discriminate]. intros creator consumer E1 E2.
    injection E1 as <-. injection E2 as <-.
    destruct (String.eqb_spec (role u) "creator") as [->|]; reflexivity.
  - split; [|now split]. intros creator consumer E1 E2.
    injection E1 as <-. reflexivity.
  - split; discriminate.
Qed.

End SessionFacts.

(** ** The login form *)

Section LoginForm.
Import AuthService Handlers.
Variable JSON_stringify : User -> string.



End LoginForm.

(** ** Requests that settle *)

Section ApiOutcomes.
Import ApiService.
Context {A : Type}.

(** X12.  [get] resolves only with the parsed body of a response whose
    [ok] flag is set, and then writes nothing to the console; whenever
    it rejects, it has written exactly one console error, carrying the
    error it rejects with. *)
Theorem get_settle_outcomes endpoint (o : FetchOutcome A) :
  (forall a, snd (get_settle endpoint o) = Ok a ->
     fst (get_settle endpoint o) = []
     /\ exists status, o = HttpResponse true status (Ok a))
  /\ (forall e, snd (get_settle endpoint o) = Throw e ->
     fst (get_settle endpoint o)
       = [ConsoleError ("API GET Error (" +:+ endpoint +:+ "):") e]).
Proof.
  unfold get_settle.
  destruct o as [e0 | [|] status [a0|e0]]; cbn; split;
    intros x E; try discriminate E; injection E as <-;
    try reflexivity.
  split; [reflexivity | now exists status].
Qed.

(** X13.  [post] does not look at the status: it resolves with the
    body of any response whose body parses, a failure response
    included, where [get] rejects with the HTTP status.  It rejects
    only when the request itself fails or the body does not parse. *)
Theorem post_settle_ignores_status endpoint (o : FetchOutcome A) :
  (forall ok status a,
     o = HttpResponse ok status (Ok a) -> post_settle endpoint o = ([], Ok a))
  /\ (forall status a,
        o = HttpResponse false status (Ok a) ->
        snd (get_settle endpoint o)
          = Throw (MkError "Error" ("HTTP " +:+ pretty status)))
  /\ (forall e, snd (post_settle endpoint o) = Throw e ->
        o = NetworkFailure e
        \/ exists ok status, o = HttpResponse ok status (Throw e)).
Proof.
  split; [|split].
  - now intros ok status a ->.
  - now intros status a ->.
  - intros e. destruct o as [e0 | ok status [a0|e0]]; cbn; intros E;
      try discriminate E; injection E as <-; eauto.
Qed.

End ApiOutcomes.

(** ** Parameter objects *)

Section ParameterObjects.

Lemma obj_get_set o k v k' :
  obj_get (obj_set o k v) k'
    = if String.eqb k k' then Some v else obj_get o k'.
Proof.
  induction o as [|[k0 v0] o IH]; cbn.
  - reflexivity.
  - destruct (String.eqb_spec k0 k) as [->|Hk]; cbn.
    + destruct (String.eqb_spec k k'); reflexivity.
    + rewrite IH. destruct (String.eqb_spec k0 k') as [->|Hk'].
      * destruct (String.eqb_spec k k'); [congruence | reflexivity].
      * reflexivity.
Qed.

Lemma obj_get_snoc o k v k' :
  obj_get (o ++ [(k, v)]) k'
    = match obj_get o k' with
      | Some x => Some x
      | None => if String.eqb k k' then Some v else None
      end.
Proof.
  induction o as [|[k0 v0] o IH]; cbn; [reflexivity|].
  destruct (String.eqb k0 k'); [reflexivity | exact IH].
Qed.

(** In [{ ...o, ...src }] a property of [src] wins over one of [o]. *)
Lemma obj_get_spread src : forall o k,
  obj_get (obj_spread o src) k
    = match obj_get (rev src) k with
      | Some v => Some v
      | None => obj_get o k
      end.
Proof.
  unfold obj_spread. induction src as [|[k0 v0] src IH]; intros o k; cbn.
  - reflexivity.
  - rewrite IH, obj_get_snoc, obj_get_set.
    destruct (obj_get (rev src) k); [reflexivity|].
    destruct (String.eqb k0 k); reflexivity.
Qed.

(** X14.  In the parameters of [getPhotos], a property of the filters
    object wins over the page and the limit: a key the filters hold is
    sent with the filters' value, [page] and [limit] included; only
    keys the filters do not hold keep the page asked for and the limit
    of 12. *)
Theorem getPhotos_params_lookup page filters k :
  obj_get (PhotoService.getPhotos_params page filters) k
    = match obj_get (rev filters) k with
      | Some v => Some v
      | None =>
          if String.eqb k "page" then Some (VNum page)
          else if String.eqb k "limit" then Some (VNum 12)
          else None
      end.
Proof.
  unfold PhotoService.getPhotos_params. rewrite obj_get_spread.
  destruct (obj_get (rev filters) k); [reflexivity|].
  change (obj_get [("page", VNum page); ("limit", VNum CONFIG.ITEMS_PER_PAGE)] k)
    with (if String.eqb "page" k then Some (VNum page)
          else if String.eqb "limit" k then Some (VNum 12) else None).
  rewrite (String.eqb_sym "page" k), (String.eqb_sym "limit" k).
  reflexivity.
Qed.

Lemma obj_set_keys o k v k' :
  In k' (map fst (obj_set o k v)) <-> k' = k \/ In k' (map fst o).
Proof.
  induction o as [|[k0 v0] o IH]; cbn.
  - intuition congruence.
  - destruct (String.eqb_spec k0 k) as [->|Hk]; cbn.
    + intuition congruence.
    + rewrite IH. intuition congruence.
Qed.

Lemma obj_set_NoDup o k v :
  List.NoDup (map fst o) -> List.NoDup (map fst (obj_set o k v)).
Proof.
  induction o as [|[k0 v0] o IH]; cbn; intros H.
  - constructor; [intros [] | constructor].
  - apply List.NoDup_cons_iff in H as [Hin Hnd].
    destruct (String.eqb_spec k0 k) as [->|Hk]; cbn.
    + now constructor.
    + constructor; [|now apply IH].
      rewrite obj_set_keys. intros [E|E]; [congruence | contradiction].
Qed.

Lemma obj_spread_keys src : forall o,
  List.NoDup (map fst o) ->
  List.NoDup (map fst (obj_spread o src))
  /\ (forall k, In k (map fst o) -> In k (map fst (obj_spread o src))).
Proof.
  unfold obj_spread. induction src as [|[k0 v0] src IH]; intros o Ho; cbn.
  - now split.
  - destruct (IH (obj_set o k0 v0) (obj_set_NoDup o k0 v0 Ho)) as [Hnd Hin].
    split; [exact Hnd|]. intros k Hk. apply Hin, obj_set_keys. now right.
Qed.

Lemma URLSearchParams_names params :
  map fst (ApiService.URLSearchParams params) = map fst params.
Proof.
  unfold ApiService.URLSearchParams.
  induction params as [|[k v] params IH]; cbn; [reflexivity | now rewrite IH].
Qed.

(** X15.  Whatever the filters object holds, the query of a photo
    request names no parameter twice, and names both [page] and
    [limit]. *)
Theorem getPhotos_request_names page filters :
  let names :=
    map fst (url_query (req_url (PhotoService.getPhotos_request page filters))) in
  List.NoDup names /\ In "page" names /\ In "limit" names.
Proof.
  cbn. rewrite URLSearchParams_names. unfold PhotoService.getPhotos_params.
  destruct (obj_spread_keys filters
              [("page", VNum page); ("limit", VNum CONFIG.ITEMS_PER_PAGE)])
    as [Hnd Hin].
  - cbn. repeat constructor; cbn; intuition discriminate.
  - split; [exact Hnd|]. split; apply Hin; cbn; auto.
Qed.

End ParameterObjects.

(** ** The pagination controls *)

Section PaginationControls.
Import UIComponents PhotoGallery.

Ltac window_split :=
  unfold pageWindow, maxVisible; change (5 / 2) with 2;
  match goal with
  | |- context [?x <? 5] => destruct (Z.ltb_spec x 5)
  end;
  cbn [fst snd].

Lemma elem_of_pageButtons m c s e :
  m ∈ pageButtons c s e -> exists p, m = PageBtn p (p =? c) /\ s <= p <= e.
Proof.
  unfold pageButtons. intros H.
  apply list_elem_of_fmap in H as (p & -> & Hp).
  apply elem_of_seqZ in Hp. exists p. split; [reflexivity | lia].
Qed.

Lemma elem_of_leftEdge m s :
  m ∈ leftEdge s -> 1 < s /\ (m = EdgeBtn 1 \/ m = Dots).
Proof.
  unfold leftEdge. destruct (Z.ltb_spec 1 s) as [Hs|Hs]; [|intros Hm; inversion Hm].
  intros Hm. split; [assumption|].
  destruct (2 <? s); rewrite ?elem_of_cons, ?elem_of_nil in Hm; tauto.
Qed.

Lemma elem_of_rightEdge m e t :
  m ∈ rightEdge e t -> e < t /\ (m = EdgeBtn t \/ m = Dots).
Proof.
  unfold rightEdge. destruct (Z.ltb_spec e t) as [He|He]; [|intros Hm; inversion Hm].
  intros Hm. split; [assumption|].
  destruct (e <? t - 1); cbn [app] in Hm;
    rewrite ?elem_of_cons, ?elem_of_nil in Hm; tauto.
Qed.

Lemma goToPage_accepts p g :
  1 <= p <= totalPages g -> currentPage (fst (goToPage p g)) = p.
Proof.
  intros [H1 H2]. unfold goToPage.
  now rewrite (proj2 (Z.leb_le 1 p) H1), (proj2 (Z.leb_le p _) H2).
Qed.

(** X16.  With the current page within 1..t, every control of the
    pagination bar that can be clicked asks for a page within 1..t, so
    [goToPage] takes it; Previous on page 1 and Next on page t are
    disabled. *)
Theorem createPagination_targets_accepted c t :
  1 <= c <= t ->
  forall m p,
    m ∈ createPagination c t -> clickTarget m = Some p ->
    1 <= p <= t
    /\ forall g, totalPages g = t -> currentPage (fst (goToPage p g)) = p.
Proof.
  intros Hc m p Hm Hp.
  assert (Hrange : 1 <= p <= t).
  { destruct (pageWindow_in_range c t Hc) as (Hs & Hin & He & _).
    rewrite createPagination_shape in Hm.
    rewrite elem_of_cons, !elem_of_app, list_elem_of_singleton in Hm.
    destruct Hm as [-> | [Hm | [Hm | [Hm | ->]]]].
    - cbn in Hp. destruct (Z.eqb_spec c 1); [discriminate|].
      injection Hp as <-. lia.
    - apply elem_of_leftEdge in Hm as [_ [-> | ->]]; [|discriminate].
      injection Hp as <-. lia.
    - apply elem_of_pageButtons in Hm as (q & -> & Hq).
      injection Hp as <-. lia.
    - apply elem_of_rightEdge in Hm as [_ [-> | ->]]; [|discriminate].
      injection Hp as <-. lia.
    - cbn in Hp. destruct (Z.eqb_spec c t); [discriminate|].
      injection Hp as <-. lia. }
  split; [exact Hrange|]. intros g <-. now apply goToPage_accepts.
Qed.

(** X17.  The bar starts with Previous and ends with Next, for the
    pages before and after the current one; Previous is disabled
    exactly on page 1 and Next exactly on page t. *)
Theorem createPagination_prev_next c t :
  exists middle,
    createPagination c t
      = PrevBtn (c - 1) (c =? 1) :: middle ++ [NextBtn (c + 1) (c =? t)]
    /\ Forall (fun m => match m with
                        | PrevBtn _ _ | NextBtn _ _ => False
                        | _ => True
                        end) middle
    /\ ((c =? 1) = true <-> c = 1)
    /\ ((c =? t) = true <-> c = t).
Proof.
  exists (leftEdge (fst (pageWindow c t))
            ++ pageButtons c (fst (pageWindow c t)) (snd (pageWindow c t))
            ++ rightEdge (snd (pageWindow c t)) t).
  split; [|split; [|split; apply Z.eqb_eq]].
  - rewrite createPagination_shape. now rewrite <- !app_assoc.
  - rewrite !Forall_app. repeat split; apply Forall_forall; intros m Hm.
    + apply elem_of_leftEdge in Hm as [_ [-> | ->]]; exact I.
    + apply elem_of_pageButtons in Hm as (q & -> & _). exact I.
    + apply elem_of_rightEdge in Hm as [_ [-> | ->]]; exact I.
Qed.

(** *** The active button *)

Lemma activePages_app l1 l2 :
  activePages (l1 ++ l2) = activePages l1 ++ activePages l2.
Proof. apply omap_app. Qed.

Lemma activePages_leftEdge s : activePages (leftEdge s) = [].
Proof. unfold leftEdge. now destruct (1 <? s), (2 <? s). Qed.

Lemma activePages_rightEdge e t : activePages (rightEdge e t) = [].
Proof. unfold rightEdge. now destruct (e <? t), (e <? t - 1). Qed.

Lemma activePages_cons_page p (b : bool) l :
  activePages (PageBtn p b :: l) = (if b then [p] else []) ++ activePages l.
Proof. now destruct b. Qed.

Lemma activePages_seqZ c k : forall s,
  activePages ((fun i => PageBtn i (i =? c)) <$> seqZ s (Z.of_nat k))
    = if (s <=? c) && (c <? s + Z.of_nat k) then [c] else [].
Proof.
  induction k as [|k IH]; intros s.
  - change (Z.of_nat 0) with 0. rewrite Z.add_0_r.
    destruct (Z.leb_spec s c), (Z.ltb_spec c s); try reflexivity; lia.
  - rewrite seqZ_cons by lia. rewrite fmap_cons.
    replace (Z.pred (Z.of_nat (S k))) with (Z.of_nat k) by lia.
    rewrite activePages_cons_page, IH.
    destruct (Z.eqb_spec s c) as [->|Hsc];
      destruct (Z.leb_spec (Z.succ c) c), (Z.ltb_spec c (Z.succ c + Z.of_nat k)),
               (Z.leb_spec c c), (Z.ltb_spec c (c + Z.of_nat (S k)));
      cbn; try reflexivity; try lia.
    all: destruct (Z.leb_spec (Z.succ s) c), (Z.ltb_spec c (Z.succ s + Z.of_nat k)),
                  (Z.leb_spec s c), (Z.ltb_spec c (s + Z.of_nat (S k)));
      cbn; try reflexivity; lia.
Qed.

Lemma activePages_pageButtons c s e :
  s <= c <= e -> activePages (pageButtons c s e) = [c].
Proof.
  intros Hc. unfold pageButtons.
  replace (e - s + 1) with (Z.of_nat (Z.to_nat (e - s + 1))) by lia.
  rewrite activePages_seqZ.
  destruct (Z.leb_spec s c), (Z.ltb_spec c (s + Z.of_nat (Z.to_nat (e - s + 1))));
    cbn; try reflexivity; lia.
Qed.

(** X18.  With the current page within 1..t, exactly one button of the
    bar is marked active, and it is the button of the current page. *)
Theorem createPagination_one_active c t :
  1 <= c <= t -> activePages (createPagination c t) = [c].
Proof.
  intros Hc. destruct (pageWindow_in_range c t Hc) as (_ & Hin & _).
  rewrite createPagination_shape.
  change (activePages (PrevBtn ?a ?b :: ?l)) with (activePages l).
  rewrite !activePages_app, activePages_leftEdge, activePages_rightEdge.
  rewrite (activePages_pageButtons c _ _ Hin). reflexivity.
Qed.

(** *** No page twice *)

Lemma increasing_cons x l :
  increasing (x :: l) = true <->
  (forall y, head l = Some y -> x < y) /\ increasing l = true.
Proof.
  destruct l as [|y l]; cbn [increasing head].
  - split; [intros _; split; [discriminate | reflexivity] | reflexivity].
  - rewrite andb_true_iff, Z.ltb_lt. split.
    + intros [Hxy Hl]. split; [|exact Hl]. intros z E. now injection E as <-.
    + intros [Hy Hl]. split; [now apply Hy | exact Hl].
Qed.

Lemma increasing_seqZ_app k : forall s rest,
  increasing rest = true ->
  (forall y, head rest = Some y -> s + Z.of_nat k - 1 < y) ->
  increasing (seqZ s (Z.of_nat k) ++ rest) = true.
Proof.
  induction k as [|k IH]; intros s rest Hrest Hhead; [exact Hrest|].
  rewrite seqZ_cons by lia.
  replace (Z.pred (Z.of_nat (S k))) with (Z.of_nat k) by lia.
  cbn [app]. apply increasing_cons. split.
  - intros y. destruct k as [|k].
    + cbn. intros Hy. specialize (Hhead y Hy). lia.
    + rewrite seqZ_cons by lia. cbn. intros E. injection E as <-. lia.
  - apply IH; [exact Hrest|]. intros y Hy. specialize (Hhead y Hy). lia.
Qed.

Lemma shownPages_app l1 l2 :
  shownPages (l1 ++ l2) = shownPages l1 ++ shownPages l2.
Proof. apply omap_app. Qed.

Lemma shownPages_pageButtons c s e :
  shownPages (pageButtons c s e) = seqZ s (e - s + 1).
Proof.
  unfold shownPages, pageButtons.
  induction (seqZ s (e - s + 1)) as [|i l IH]; [reflexivity|].
  cbn. now rewrite IH.
Qed.

Lemma shownPages_leftEdge s :
  shownPages (leftEdge s) = if 1 <? s then [1] else [].
Proof. unfold leftEdge. now destruct (1 <? s), (2 <? s). Qed.

Lemma shownPages_rightEdge e t :
  shownPages (rightEdge e t) = if e <? t then [t] else [].
Proof. unfold rightEdge. now destruct (e <? t), (e <? t - 1). Qed.

Lemma shownPages_createPagination c t :
  shownPages (createPagination c t)
    = (if 1 <? fst (pageWindow c t) then [1] else [])
      ++ seqZ (fst (pageWindow c t))
              (snd (pageWindow c t) - fst (pageWindow c t) + 1)
      ++ (if snd (pageWindow c t) <? t then [t] else []).
Proof.
  rewrite createPagination_shape.
  change (shownPages (PrevBtn ?a ?b :: ?l)) with (shownPages l).
  rewrite !shownPages_app, shownPages_leftEdge, shownPages_pageButtons,
    shownPages_rightEdge.
  cbn. now rewrite app_nil_r.
Qed.

Lemma increasing_bar s e t :
  s <= e ->
  increasing ((if 1 <? s then [1] else [])
                ++ seqZ s (e - s + 1)
                ++ (if e <? t then [t] else [])) = true.
Proof.
  intros Hse.
  replace (e - s + 1) with (Z.of_nat (Z.to_nat (e - s + 1))) by lia.
  assert (Hwin : increasing
                   (seqZ s (Z.of_nat (Z.to_nat (e - s + 1)))
                      ++ (if e <? t then [t] else [])) = true).
  { apply increasing_seqZ_app.
    - now destruct (e <? t).
    - intros y. destruct (Z.ltb_spec e t) as [Het|Het]; [|discriminate].
      cbn [head]. intros E. injection E as <-. lia. }
  destruct (Z.ltb_spec 1 s) as [Hs|Hs]; [|exact Hwin].
  cbn [app]. apply increasing_cons. split; [|exact Hwin].
  intros y. rewrite seqZ_cons by lia. cbn [app head].
  intros E. injection E as <-. exact Hs.
Qed.

(** X19.  For every current page and page count, the page numbers on
    the bar, edge buttons included, go strictly up from left to right;
    so no page is offered twice. *)
Theorem createPagination_pages_increase c t :
  increasing (shownPages (createPagination c t)) = true.
Proof.
  rewrite shownPages_createPagination.
  destruct (Z.le_gt_cases (fst (pageWindow c t)) (snd (pageWindow c t)))
    as [Hse | Hes].
  - now apply increasing_bar.
  - destruct (empty_window c t Hes) as (-> & -> & Ht).
    rewrite seqZ_nil by lia. now rewrite !Z.ltb_irrefl.
Qed.

End PaginationControls.

(** ** The gallery over time *)

Section GalleryOverTime.
Import PhotoGallery.

(** X20.  What [loadPhotos] puts on the page is what it has stored:
    when the grid and the pagination bar exist, either the gallery is
    unchanged and nothing was rendered, or the grid was rendered once,
    with the photos now held, and the bar once, for the page and page
    count now held (hidden when there is at most one page). *)
Theorem loadPhotos_settle_renders stats dom g o :
  galleryGrid dom = true -> pagination dom = true ->
  let '(g', log, _) := loadPhotos_settle stats dom g o in
  (g' = g /\ gallery_renders log = [] /\ pagination_renders log = [])
  \/ (gallery_renders log = [arr_or (photos g') []]
      /\ pagination_renders log
         = [if totalPages g' <=? 1 then None
            else Some (UIComponents.createPagination
                         (currentPage g') (totalPages g'))]).
Proof.
  intros Hg Hp. unfold loadPhotos_settle, renderPhotos, renderPagination.
  rewrite Hg, Hp.
  destruct o as [e | [|] status [[|r]|e]]; cbn;
    try (left; repeat split; reflexivity).
  destruct (resp_pagination r) as [p|]; [destruct stats as [|e]|]; cbn.
  - destruct (totalPhotos dom), (num_or (pages p) 1 <=? 1); cbn;
      right; split; reflexivity.
  - destruct (num_or (pages p) 1 <=? 1); cbn; right; split; reflexivity.
  - right; split; reflexivity.
Qed.

(** X21.  No request is tied to its answer.  Two searches, for [x] and
    then for [y], leave two requests under way; when the answer to the
    second arrives first and the answer to the first last, the gallery
    ends with the photos and page count of the first search under the
    search text of the second. *)
Theorem older_response_overwrites g x y dom rA rB statsA statsB :
  let v0 := {| gallery := g; pending := [] |} in
  let v1 := fst (step (search_box x) v0 Search) in
  let v2 := fst (step (search_box y) v1 Search) in
  let v3 := fst (step dom v2 (Settle 1 (ok_body rB) statsB)) in
  let v4 := fst (step dom v3 (Settle 0 (ok_body rA) statsA)) in
  (fun r => query_get (url_query (req_url r)) "search") <$> pending v2
    = [Some x; Some y]
  /\ search (filters (gallery v4)) = y
  /\ photos (gallery v4) = Some (arr_or (resp_photos rA) [])
  /\ totalPages (gallery v4) = num_or (reported_pages rA) 1
  /\ pending v4 = [].
Proof.
  cbn zeta. unfold reported_pages, ok_body. cbn.
  unfold loadPhotos_settle. cbn.
  destruct (resp_pagination rB) as [pB|]; [destruct statsB|]; cbn;
    (destruct (resp_pagination rA) as [pA|]; [destruct statsA|]; cbn);
    repeat split; reflexivity.
Qed.

(** X22.  [goToPage] keeps no record of the page it is on: calling it
    again for the same page, within range, leaves the gallery as the
    first call left it and issues the same request once more. *)
Theorem goToPage_again n g :
  1 <= n <= totalPages g ->
  let '(g1, log1) := goToPage n g in
  goToPage n g1 = (g1, log1)
  /\ requests log1 = [loadPhotos_request g1].
Proof.
  intros [H1 H2]. unfold goToPage.
  rewrite (proj2 (Z.leb_le 1 n) H1), (proj2 (Z.leb_le n _) H2). cbn.
  rewrite ?(proj2 (Z.leb_le 1 n) H1), ?(proj2 (Z.leb_le n _) H2).
  split; reflexivity.
Qed.

(** X23.  A page change is not taken back when its request fails: the
    current page stays at the page asked for, while the photos and the
    page count are still those held before. *)
Theorem failed_page_change_not_undone dom n g o stats :
  1 <= n <= totalPages g ->
  fetch_failed o = true ->
  let v0 := {| gallery := g; pending := [] |} in
  let v1 := fst (step dom v0 (GoToPage n)) in
  let v2 := fst (step dom v1 (Settle 0 o stats)) in
  currentPage (gallery v2) = n
  /\ photos (gallery v2) = photos g
  /\ totalPages (gallery v2) = totalPages g
  /\ filters (gallery v2) = filters g
  /\ pending v2 = [].
Proof.
  intros [H1 H2] Hf. cbn zeta. cbn [step gallery pending]. unfold goToPage.
  rewrite (proj2 (Z.leb_le 1 n) H1), (proj2 (Z.leb_le n _) H2). cbn.
  rewrite (loadPhotos_settle_failed stats dom _ o Hf). cbn.
  repeat split; reflexivity.
Qed.

(** X24.  [searchPhotos] changes the search text and the current page
    only: sort order, location, minimum rating, page count and photos
    are kept; without a search box it changes nothing and issues no
    request. *)
Theorem searchPhotos_frame dom g :
  let '(g', log) := searchPhotos dom g in
  sort (filters g') = sort (filters g)
  /\ location (filters g') = location (filters g)
  /\ minRating (filters g') = minRating (filters g)
  /\ totalPages g' = totalPages g
  /\ photos g' = photos g
  /\ (globalSearch dom = None -> g' = g /\ log = []).
Proof.
  unfold searchPhotos. destruct (globalSearch dom) as [value|]; cbn;
    repeat split; try reflexivity; discriminate.
Qed.

End GalleryOverTime.

(** ** Messages are never empty *)

Section Messages.
Import AuthService Handlers.




End Messages.

(** ** Initialization *)

Section InitializationFacts.
Import Initialization PhotoGallery.

Lemma pop_split_spec path : forall segment,
  no_slash segment ->
  exists before,
    segment ++ path = before ++ pop_split path segment
    /\ no_slash (pop_split path segment)
    /\ (before = [] \/ exists b, before = b ++ ["/"%char]).
Proof.
  induction path as [|c path IH]; intros segment Hseg; cbn [pop_split].
  - exists []. rewrite app_nil_r. repeat split; auto.
  - destruct (Ascii.eqb_spec c "/"%char) as [->|Hc].
    + assert (Hnil : no_slash []) by constructor.
      destruct (IH [] Hnil) as (before & Heq & Hno & Hb).
      cbn in Heq. exists (segment ++ "/"%char :: before).
      split; [|split; [exact Hno|]].
      * rewrite <- app_assoc. cbn [app]. do 2 f_equal. exact Heq.
      * right. destruct Hb as [-> | [b ->]].
        -- now exists segment.
        -- exists (segment ++ "/"%char :: b). now rewrite <- app_assoc.
    + destruct (IH (segment ++ [c])) as (before & Heq & Hno & Hb).
      * apply Forall_app. split; [exact Hseg | now constructor].
      * exists before. rewrite <- app_assoc in Heq. now repeat split.
Qed.

Lemma pop_split_no_slash name : forall segment,
  no_slash name -> pop_split name segment = segment ++ name.
Proof.
  induction name as [|c name IH]; intros segment Hname; cbn [pop_split].
  - now rewrite app_nil_r.
  - apply Forall_cons in Hname as [Hc Hname].
    destruct (Ascii.eqb_spec c "/"%char); [contradiction|].
    rewrite IH by assumption. now rewrite <- app_assoc.
Qed.

Lemma pop_split_after_slash before : forall segment name,
  pop_split (before ++ "/"%char :: name) segment = pop_split name [].
Proof.
  induction before as [|c before IH]; intros segment name; cbn [app pop_split].
  - reflexivity.
  - destruct (Ascii.eqb c "/"%char); apply IH.
Qed.

(** X27.  The page name taken from the path is what follows its last
    slash: a path splits into a part that is empty or ends in a slash
    and a name without a slash, and that name is the page name; a path
    without a slash is its own page name. *)
Theorem pop_split_page_name path :
  (exists before,
     path = before ++ pop_split path []
     /\ no_slash (pop_split path [])
     /\ (before = [] \/ exists b, before = b ++ ["/"%char]))
  /\ (forall before name,
        no_slash name -> path = before ++ "/"%char :: name ->
        pop_split path [] = name)
  /\ (no_slash path -> pop_split path [] = path).
Proof.
  split; [|split].
  - assert (Hnil : no_slash []) by constructor.
    exact (pop_split_spec path [] Hnil).
  - intros before name Hname ->.
    rewrite pop_split_after_slash. now apply pop_split_no_slash.
  - intros Hpath. now apply pop_split_no_slash.
Qed.

Lemma list_ascii_eqb_eq a b : list_ascii_eqb a b = true <-> a = b.
Proof.
  unfold list_ascii_eqb. rewrite String.eqb_eq. split; [|now intros ->].
  intros E. rewrite <- (String.list_ascii_of_string_of_list_ascii a),
    <- (String.list_ascii_of_string_of_list_ascii b). now rewrite E.
Qed.

(** X28.  On page load the gallery is requested exactly when the page
    name is [consumer.html] or empty, once and for the gallery as it
    stands.  When the stored user does not parse, the listener stops at
    its first line: it throws, and no photos are requested on any
    page. *)
Theorem DOMContentLoaded_loads JSON_parse dom pathname st
    (localStorage : gmap string string) v :
  let '(st', v', log, result) :=
    DOMContentLoaded JSON_parse dom pathname st localStorage v in
  match snd (AuthService.getCurrentUser JSON_parse st localStorage) with
  | Throw e => result = Throw e /\ log = [] /\ v' = v
  | Ok user =>
      result = Ok tt
      /\ (forall u, user = Some u -> currentUser st' = Some u)
      /\ (pop_split pathname [] = consumer_html \/ pop_split pathname [] = [] ->
          log = [Fetch (loadPhotos_request (gallery v))]
          /\ gallery v' = gallery v
          /\ pending v' = pending v ++ [loadPhotos_request (gallery v)])
      /\ (pop_split pathname [] <> consumer_html ->
          pop_split pathname [] <> [] ->
          log = [] /\ v' = v)
  end.
Proof.
  unfold DOMContentLoaded.
  destruct (AuthService.getCurrentUser JSON_parse st localStorage)
    as [st1 [user|e]]; cbn [snd]; [|now repeat split].
  destruct (list_ascii_eqb (pop_split pathname []) consumer_html) eqn:Hc;
    [|destruct (list_ascii_eqb (pop_split pathname []) []) eqn:He];
    cbn [orb step].
  - apply list_ascii_eqb_eq in Hc.
    split; [reflexivity|]. split; [now intros u ->|].
    split; [now intros _|]. intros Hn. contradiction.
  - apply list_ascii_eqb_eq in He.
    split; [reflexivity|]. split; [now intros u ->|].
    split; [now intros _|]. intros _ Hn. contradiction.
  - assert (Hc' : pop_split pathname [] <> consumer_html)
      by (intros E; apply list_ascii_eqb_eq in E; congruence).
    assert (He' : pop_split pathname [] <> [])
      by (intros E; apply list_ascii_eqb_eq in E; congruence).
    split; [reflexivity|]. split; [now intros u ->|].
    split; [intros [E|E]; contradiction | now intros _ _].
Qed.

End InitializationFacts.

(** ** Further instances at concrete inputs *)

(** The text [a@b.c] is accepted. *)
Lemma validateEmail_shape_witness :
  Utils.validateEmail ecma_space short_email = true.
Proof.
  apply (proj2 (validateEmail_shape ecma_space short_email)).
  exists [97%N], [98%N], [99%N]. unfold email_part.
  repeat split; try discriminate; repeat constructor; discriminate.
Defined.

Lemma validateEmail_accepts_witness :
  Utils.validateEmail ecma_space short_email = true
  /\ occurrences Utils.at_sign short_email = 1%nat
  /\ (5 <= length short_email)%nat.
Proof.
  assert (H : Utils.validateEmail ecma_space short_email = true) by reflexivity.
  split; [exact H|].
  destruct (validateEmail_accepts ecma_space short_email H) as (Hone & _ & Hlen & _).
  split; assumption.
Defined.

(** A form with an accepted e-mail and a password of six code units
    is passed on. *)
Lemma registerForm_submit_gate_witness :
  snd (Handlers.registerForm_submit ecma_space sample_userData)
    = Some sample_userData.
Proof.
  apply (proj1 (registerForm_submit_gate ecma_space sample_userData)).
  split; [reflexivity | cbn; lia].
Defined.

(** The timer of a first notification runs out after a second one has
    been shown. *)
Lemma stale_timer_spares_new_notification_witness :
  (0 < Utils.created (Utils.note_run Utils.blank_page saved_note))%nat
  /\ Utils.note_step
       (Utils.showNotification "Failed" "error"
          (Utils.note_run Utils.blank_page saved_note))
       (Utils.TimedOut 0)
     = Utils.showNotification "Failed" "error"
         (Utils.note_run Utils.blank_page saved_note).
Proof.
  assert (H : (0 < Utils.created (Utils.note_run Utils.blank_page saved_note))%nat)
    by (cbn; lia).
  split; [exact H|].
  exact (proj1 (stale_timer_spares_new_notification
                  saved_note "Failed" "error" 0%nat H)).
Defined.

(** [alice] logs in, the page is loaded again, and she is still the
    current user. *)
Lemma login_survives_reload_witness :
  AuthService.getCurrentUser parse_alice
    (fst (AuthService.reload
            (<["photoapp_token" := "authenticated"]>
               (<["photoapp_user" := "alice"]> ∅))))
    (snd (AuthService.reload
            (<["photoapp_token" := "authenticated"]>
               (<["photoapp_user" := "alice"]> ∅))))
  = ({| currentUser := Some alice |}, Ok (Some alice)).
Proof.
  refine (proj2 (login_survives_reload parse_alice stringify_name
                   signed_out ∅ alice_accepted
                   {| currentUser := Some alice |}
                   (<["photoapp_token" := "authenticated"]>
                      (<["photoapp_user" := "alice"]> ∅))
                   [] alice "Login successful" _ _ _)).
  - reflexivity.
  - discriminate.
  - reflexivity.
Defined.

(** [alice] is read from the storage once; emptying the storage later
    does not sign her out. *)
Lemma getCurrentUser_sticks_witness :
  AuthService.getCurrentUser parse_alice {| currentUser := Some alice |} ∅
    = ({| currentUser := Some alice |}, Ok (Some alice)).
Proof.
  apply (getCurrentUser_sticks parse_alice signed_out alice_stored
           {| currentUser := Some alice |} alice).
  vm_compute. reflexivity.
Defined.

(** [alice], a consumer, is no creator. *)
Lemma roles_exclude_each_other_witness :
  snd (AuthService.isCreator parse_alice {| currentUser := Some alice |} ∅)
    = Ok false
  /\ snd (AuthService.isConsumer parse_alice {| currentUser := Some alice |} ∅)
    = Ok true
  /\ false && true = false.
Proof.
  split; [reflexivity|]. split; [reflexivity|].
  apply (proj1 (roles_exclude_each_other parse_alice
                  {| currentUser := Some alice |} ∅) false true);
    reflexivity.
Defined.

(** A response with status 500 and a body: [get] rejects and logs. *)
Lemma get_settle_outcomes_witness :
  fst (ApiService.get_settle "/photos" server_error_body)
    = [ConsoleError "API GET Error (/photos):" (MkError "Error" "HTTP 500")].
Proof.
  apply (proj2 (get_settle_outcomes "/photos" server_error_body)).
  reflexivity.
Defined.

(** The same response: [post] resolves with the body. *)
Lemma post_settle_ignores_status_witness :
  ApiService.post_settle "/photos/1/rate" server_error_body = ([], Ok 7%nat).
Proof.
  apply (proj1 (post_settle_ignores_status "/photos/1/rate" server_error_body)
           false 500 7%nat).
  reflexivity.
Defined.

(** On page 10 of 20 the edge button of page 20 is taken by
    [goToPage]. *)
Lemma createPagination_targets_accepted_witness :
  1 <= 10 <= 20
  /\ 1 <= 20 <= 20
  /\ PhotoGallery.currentPage
       (fst (PhotoGallery.goToPage 20
               (PhotoGallery.set_totalPages PhotoGallery.initial 20))) = 20.
Proof.
  assert (Hc : 1 <= 10 <= 20) by lia.
  assert (Hm : UIComponents.EdgeBtn 20 ∈ UIComponents.createPagination 10 20).
  { apply list_elem_of_In. vm_compute. tauto. }
  destruct (createPagination_targets_accepted 10 20 Hc
              (UIComponents.EdgeBtn 20) 20 Hm eq_refl) as [Hr Hg].
  split; [exact Hc|]. split; [exact Hr|]. now apply Hg.
Defined.

Lemma createPagination_one_active_witness :
  1 <= 10 <= 20
  /\ activePages (UIComponents.createPagination 10 20) = [10].
Proof.
  assert (Hc : 1 <= 10 <= 20) by lia.
  split; [exact Hc | exact (createPagination_one_active 10 20 Hc)].
Defined.

(** A first load that brings no photos and no pagination: the grid is
    rendered empty and the bar is hidden. *)
Lemma loadPhotos_settle_renders_witness :
  galleryGrid full_dom = true /\ pagination full_dom = true
  /\ gallery_renders
       (snd (fst (PhotoGallery.loadPhotos_settle Completes full_dom
                    PhotoGallery.initial (ok_body empty_body)))) = [[]].
Proof.
  split; [reflexivity|]. split; [reflexivity|].
  pose proof (loadPhotos_settle_renders Completes full_dom PhotoGallery.initial
                (ok_body empty_body) eq_refl eq_refl) as H.
  cbn in H. destruct H as [(_ & H & _) | (H & _)]; [discriminate H | exact H].
Defined.

Lemma goToPage_again_witness :
  1 <= 2 <= PhotoGallery.totalPages three_pages
  /\ PhotoGallery.goToPage 2 (fst (PhotoGallery.goToPage 2 three_pages))
     = PhotoGallery.goToPage 2 three_pages.
Proof.
  assert (H : 1 <= 2 <= PhotoGallery.totalPages three_pages) by (cbn; lia).
  split; [exact H|].
  pose proof (goToPage_again 2 three_pages H) as G.
  cbn in G. destruct G as [G _]. exact G.
Defined.

Lemma failed_page_change_not_undone_witness :
  1 <= 2 <= PhotoGallery.totalPages three_pages
  /\ fetch_failed fetch_rejected = true
  /\ PhotoGallery.currentPage
       (PhotoGallery.gallery
          (fst (PhotoGallery.step no_dom
                  (fst (PhotoGallery.step no_dom
                          {| PhotoGallery.gallery := three_pages;
                             PhotoGallery.pending := [] |}
                          (PhotoGallery.GoToPage 2)))
                  (PhotoGallery.Settle 0 fetch_rejected Completes)))) = 2.
Proof.
  assert (H : 1 <= 2 <= PhotoGallery.totalPages three_pages) by (cbn; lia).
  split; [exact H|]. split; [reflexivity|].
  exact (proj1 (failed_page_change_not_undone no_dom 2 three_pages
                  fetch_rejected Completes H eq_refl)).
Defined.

(** Without a search box nothing happens. *)
Lemma searchPhotos_frame_witness :
  globalSearch no_dom = None
  /\ fst (PhotoGallery.searchPhotos no_dom three_pages) = three_pages
  /\ snd (PhotoGallery.searchPhotos no_dom three_pages) = [].
Proof.
  split; [reflexivity|].
  pose proof (searchPhotos_frame no_dom three_pages) as H.
  destruct (PhotoGallery.searchPhotos no_dom three_pages) as [g' log].
  destruct H as (_ & _ & _ & _ & _ & H). exact (H eq_refl).
Defined.

(** The page name of [/app/consumer.html]. *)
Lemma pop_split_page_name_witness :
  Initialization.pop_split consumer_path [] = Initialization.consumer_html.
Proof.
  apply (proj1 (proj2 (pop_split_page_name consumer_path))
           (String.list_ascii_of_string "/app") Initialization.consumer_html).
  - repeat constructor; discriminate.
  - reflexivity.
Defined.

(** Loading [/app/consumer.html] without a stored user requests the
    first page. *)
Lemma DOMContentLoaded_loads_witness :
  snd (fst (Initialization.DOMContentLoaded parse_alice no_dom consumer_path
              signed_out ∅ PhotoGallery.start))
    = [Fetch (PhotoGallery.loadPhotos_request PhotoGallery.initial)].
Proof.
  pose proof (DOMContentLoaded_loads parse_alice no_dom consumer_path
                signed_out ∅ PhotoGallery.start) as H.
  destruct (Initialization.DOMContentLoaded parse_alice no_dom consumer_path
              signed_out ∅ PhotoGallery.start) as [[[st' v'] log] result].
  cbn in H. destruct H as (_ & _ & H & _).
  destruct H as (H & _); [left; reflexivity | exact H].
Defined.
